(** * prstar: partitioned multivectors of P(R*_{3,0,1})

    A shallow embedding of [public/prstar/prstar.hpp]: the 4-lane
    partition, the masked entity with its contiguous storage, the
    coefficient accessors, reversion, addition and subtraction (both
    overloads), the dispatch of the geometric product onto the
    partition-pair kernels, and the named entities ([motor], [plane],
    [line], [ideal_line], [bivector], [point], [direction]).  Left out:
    [point::normalize] (its reciprocal is a hardware approximation),
    [bivector::operator[]] and the [pNf()] accessors (raw pointers into the
    storage), and the generator tags.

    Conventions.
    - A [float] is an IEEE-754 binary32 datum, as a [spec_float] with
      precision 24 and [emax] 128.  [spec_float] has one NaN: payloads and
      the quiet/signalling distinction are not represented.
    - [uint8_t] and [size_t] values are [Z]; where the source can wrap, the
      wrap-around is written out.
    - An array access is a list lookup; an access outside the array is
      undefined behaviour in the source and [None] here, so every operation
      that touches storage lives in the [option] monad. *)

From Stdlib Require Import ZArith QArith Qpower Lia Bool.
From Stdlib Require Import Floats.SpecFloat.
From stdpp Require Import base option list.

Local Open Scope Z_scope.

(** ** Single-precision lanes *)

Module F32.

Definition prec : Z := 24.
Definition emax : Z := 128.

Definition float := spec_float.

(** The literals that occur in the header. *)
Definition zero : float := S754_zero false.          (* 0.f   *)
Definition neg_zero : float := S754_zero true.       (* -0.0  *)
Definition one : float := S754_finite false 8388608 (-23).      (* 1.f  *)
Definition neg_one : float := S754_finite true 8388608 (-23).   (* -1.f *)

Definition add (x y : float) : float := SFadd prec emax x y.
Definition sub (x y : float) : float := SFsub prec emax x y.
Definition mul (x y : float) : float := SFmul prec emax x y.
(** Unary minus on a float. *)
Definition neg (x : float) : float := SFopp x.
(** C++ [==] on floats. *)
Definition eqb (x y : float) : bool := SFeqb x y.

(** A well-formed binary32 datum: canonical mantissa, exponent in range. *)
Definition valid (x : float) : Prop := valid_binary prec emax x = true.

Definition is_nan (x : float) : bool :=
  match x with S754_nan => true | _ => false end.

End F32.

Abbreviation float := F32.float.

(** ** SSE registers and partitions

    [union partition { float data[4]; __m128 reg; }]: the two members name
    the same four lanes, lane 0 being the least significant one. *)

Record __m128 := mk_m128 { lane0 : float; lane1 : float; lane2 : float; lane3 : float }.

Definition partition := __m128.

(** [p.data[i]] *)
Definition data (p : partition) (i : Z) : option float :=
  if i =? 0 then Some (lane0 p)
  else if i =? 1 then Some (lane1 p)
  else if i =? 2 then Some (lane2 p)
  else if i =? 3 then Some (lane3 p)
  else None.

(** [_mm_set_ps(e3, e2, e1, e0)] puts its LAST argument in lane 0. *)
Definition _mm_set_ps (e3 e2 e1 e0 : float) : __m128 := mk_m128 e0 e1 e2 e3.
Definition _mm_set1_ps (a : float) : __m128 := mk_m128 a a a a.

Definition lanewise (f : float -> float -> float) (a b : __m128) : __m128 :=
  mk_m128 (f (lane0 a) (lane0 b)) (f (lane1 a) (lane1 b))
          (f (lane2 a) (lane2 b)) (f (lane3 a) (lane3 b)).

Definition _mm_add_ps : __m128 -> __m128 -> __m128 := lanewise F32.add.
Definition _mm_sub_ps : __m128 -> __m128 -> __m128 := lanewise F32.sub.
Definition _mm_mul_ps : __m128 -> __m128 -> __m128 := lanewise F32.mul.

(** [_mm_xor_ps(a, _mm_set1_ps(-0.0))]: the second operand has only the sign
    bit of each lane set, so the exclusive-or flips the sign of each lane
    and leaves exponent and mantissa alone. *)
Definition _mm_xor_ps_sign (a : __m128) : __m128 :=
  mk_m128 (F32.neg (lane0 a)) (F32.neg (lane1 a)) (F32.neg (lane2 a)) (F32.neg (lane3 a)).

(** All four lanes negated / lane 0 kept and lanes 1..3 negated. *)
Definition negate_all (a : __m128) : __m128 :=
  mk_m128 (F32.neg (lane0 a)) (F32.neg (lane1 a)) (F32.neg (lane2 a)) (F32.neg (lane3 a)).
Definition negate_high (a : __m128) : __m128 :=
  mk_m128 (lane0 a) (F32.neg (lane1 a)) (F32.neg (lane2 a)) (F32.neg (lane3 a)).

Definition valid_partition (p : partition) : Prop :=
  F32.valid (lane0 p) /\ F32.valid (lane1 p) /\ F32.valid (lane2 p) /\ F32.valid (lane3 p).

(** ** Masked entities *)

(** [entity<PMask>]: the template argument is kept as a field (the source
    exposes it as the static member [partition_mask]). *)
Record entity := mk_entity { partition_mask : Z; parts : list partition }.

Definition partition_count (PMask : Z) : Z :=
  Z.land PMask 1 + Z.land (Z.shiftr PMask 1) 1
  + Z.land (Z.shiftr PMask 2) 1 + Z.land (Z.shiftr PMask 3) 1.

Definition partition_offsets (PMask : Z) : list Z :=
  [ 0;
    Z.land PMask 1;
    Z.land PMask 1 + Z.land (Z.shiftr PMask 1) 1;
    Z.land PMask 1 + Z.land (Z.shiftr PMask 1) 1 + Z.land (Z.shiftr PMask 2) 1 ].

(** [a[i]] as an rvalue and [a[i] = v], for an array held as a list. *)
Definition rd {A} (a : list A) (i : Z) : option A :=
  if i <? 0 then None else a !! Z.to_nat i.

Definition wr {A} (a : list A) (i : Z) (v : A) : option (list A) :=
  if (0 <=? i) && (i <? Z.of_nat (length a)) then Some (<[Z.to_nat i := v]> a) else None.

(** The storage [partition parts[partition_count]] has exactly that many
    cells; the presence mask has four bits. *)
Definition mask4 (PMask : Z) : Prop := 0 <= PMask < 16.

Definition wf (e : entity) : Prop :=
  mask4 (partition_mask e) /\
  Z.of_nat (length (parts e)) = partition_count (partition_mask e).

Definition valid_entity (e : entity) : Prop := Forall valid_partition (parts e).

(** [(PMask & bit) > 0] *)
Definition has (PMask bit : Z) : bool := Z.land PMask bit >? 0.

(** Slot [k] is materialized. *)
Definition present (PMask : Z) (k : Z) : bool := Z.testbit PMask k.

(** *** Raw partition accessors [p0()] .. [p3()] *)

Definition part_at (k : Z) (e : entity) : option partition :=
  off ← rd (partition_offsets (partition_mask e)) k;
  rd (parts e) off.

Definition p0 : entity -> option partition := part_at 0.
Definition p1 : entity -> option partition := part_at 1.
Definition p2 : entity -> option partition := part_at 2.
Definition p3 : entity -> option partition := part_at 3.

(** Slot [k] of an entity as the data model sees it: the stored partition
    when the mask has bit [k], nothing otherwise. *)
Definition slot (e : entity) (k : Z) : option partition :=
  if present (partition_mask e) k then part_at k e else None.

(** *** Coefficient accessors *)

(** [parts[partition_offsets[k]].data[i]] *)
Definition coeff_at (k i : Z) (e : entity) : option float :=
  p ← part_at k e; data p i.

Definition scalar (e : entity) : option float :=
  if has (partition_mask e) 2 then coeff_at 1 0 e else Some F32.zero.

Definition e0 (e : entity) : option float :=
  if has (partition_mask e) 1 then coeff_at 0 3 e else Some F32.zero.
Definition e1 (e : entity) : option float :=
  if has (partition_mask e) 1 then coeff_at 0 2 e else Some F32.zero.
Definition e2 (e : entity) : option float :=
  if has (partition_mask e) 1 then coeff_at 0 1 e else Some F32.zero.
Definition e3 (e : entity) : option float :=
  if has (partition_mask e) 1 then coeff_at 0 0 e else Some F32.zero.

Definition e12 (e : entity) : option float :=
  if has (partition_mask e) 2 then coeff_at 1 1 e else Some F32.zero.
Definition e21 (e : entity) : option float :=
  if has (partition_mask e) 2 then F32.neg <$> coeff_at 1 1 e else Some F32.zero.
Definition e31 (e : entity) : option float :=
  if has (partition_mask e) 2 then coeff_at 1 2 e else Some F32.zero.
Definition e13 (e : entity) : option float :=
  if has (partition_mask e) 2 then F32.neg <$> coeff_at 1 2 e else Some F32.zero.
Definition e23 (e : entity) : option float :=
  if has (partition_mask e) 2 then coeff_at 1 3 e else Some F32.zero.
Definition e32 (e : entity) : option float :=
  if has (partition_mask e) 2 then F32.neg <$> coeff_at 1 3 e else Some F32.zero.

Definition e01 (e : entity) : option float :=
  if has (partition_mask e) 4 then coeff_at 2 1 e else Some F32.zero.
Definition e10 (e : entity) : option float :=
  if has (partition_mask e) 4 then F32.neg <$> coeff_at 2 1 e else Some F32.zero.
Definition e02 (e : entity) : option float :=
  if has (partition_mask e) 4 then coeff_at 2 2 e else Some F32.zero.
Definition e20 (e : entity) : option float :=
  if has (partition_mask e) 4 then F32.neg <$> coeff_at 2 2 e else Some F32.zero.
Definition e03 (e : entity) : option float :=
  if has (partition_mask e) 4 then coeff_at 2 3 e else Some F32.zero.
Definition e30 (e : entity) : option float :=
  if has (partition_mask e) 4 then F32.neg <$> coeff_at 2 3 e else Some F32.zero.

Definition e123 (e : entity) : option float :=
  if has (partition_mask e) 8 then coeff_at 3 0 e else Some F32.zero.
Definition e021 (e : entity) : option float :=
  if has (partition_mask e) 8 then coeff_at 3 1 e else Some F32.zero.
Definition e013 (e : entity) : option float :=
  if has (partition_mask e) 8 then coeff_at 3 2 e else Some F32.zero.
Definition e032 (e : entity) : option float :=
  if has (partition_mask e) 8 then coeff_at 3 3 e else Some F32.zero.

Definition e0123 (e : entity) : option float :=
  if has (partition_mask e) 4 then coeff_at 2 0 e else Some F32.zero.

(** ** Storage helpers shared by the operators *)

Definition u8 (x : Z) : Z := x mod 256.

(** [x] used as a condition: non-zero. *)
Definition nz (x : Z) : bool := negb (x =? 0).

(** [for (uint8_t m = 1; m != 0b10000; m <<= 1) body], entered with the
    current value of [m].  [None] also stands for a loop that is still
    running when the fuel is spent. *)
Fixpoint mask_loop {S : Type} (fuel : nat) (body : Z -> S -> option S) (m : Z) (s : S)
  : option S :=
  if m =? 16 then Some s
  else match fuel with
       | O => None
       | Datatypes.S fuel' => s' ← body m s; mask_loop fuel' body (u8 (Z.shiftl m 1)) s'
       end.

Definition loop_fuel : nat := 8.

Section Engine.

(** What an uninitialized partition happens to hold. *)
Variable indeterminate : partition.

(** [entity() {}]: storage of the right size, nothing written. *)
Definition default_entity (PMask : Z) : entity :=
  mk_entity PMask (replicate (Z.to_nat (partition_count PMask)) indeterminate).

(** [for (uint8_t i = 0; i != partition_count; ++i) parts[i].reg = other.parts[i].reg;] *)
Fixpoint copy_loop (fuel : nat) (count i : Z) (src dst : list partition)
  : option (list partition) :=
  if i =? count then Some dst
  else match fuel with
       | O => None
       | Datatypes.S fuel' =>
           v ← rd src i; dst' ← wr dst i v;
           copy_loop fuel' count (u8 (i + 1)) src dst'
       end.

(** [entity(entity const& other)] *)
Definition copy (other : entity) : option entity :=
  let PMask := partition_mask other in
  ps ← copy_loop 256 (partition_count PMask) 0 (parts other)
                 (parts (default_entity PMask));
  Some (mk_entity PMask ps).

(** [out.pk() = v] through the mutable accessor. *)
Definition set_part (k : Z) (out : entity) (v : __m128) : option entity :=
  off ← rd (partition_offsets (partition_mask out)) k;
  ps ← wr (parts out) off v;
  Some (mk_entity (partition_mask out) ps).

(** Run [f] when the [if constexpr] condition holds. *)
Definition when {S : Type} (c : bool) (f : S -> option S) (s : S) : option S :=
  if c then f s else Some s.

(** *** Reversion, [operator~] *)

Definition operator_tilde (this : entity) : option entity :=
  let PMask := partition_mask this in
  out ← copy this;
  out ← when (has PMask 2) (fun out =>
           a ← p1 this;
           set_part 1 out
             (_mm_mul_ps a (_mm_set_ps F32.neg_one F32.neg_one F32.neg_one F32.one))) out;
  out ← when (has PMask 4) (fun out =>
           a ← p2 this;
           set_part 2 out
             (_mm_mul_ps a (_mm_set_ps F32.neg_one F32.neg_one F32.neg_one F32.one))) out;
  out ← when (has PMask 8) (fun out =>
           a ← p3 this;
           set_part 3 out (_mm_mul_ps a (_mm_set1_ps F32.neg_one))) out;
  Some out.

(** *** Addition and subtraction, [add_sub<Add>(other) const&] *)

Record add_sub_state := mk_add_sub_state
  { out_parts : list partition; offset : Z; lhs_offset : Z; rhs_offset : Z }.

Definition add_sub_body (Add : bool) (this other : entity) (m : Z) (st : add_sub_state)
  : option add_sub_state :=
  let PMask := partition_mask this in
  let PMask2 := partition_mask other in
  if nz (Z.land PMask m) then
    if nz (Z.land PMask2 m) then
      a ← rd (parts this) (lhs_offset st);
      b ← rd (parts other) (rhs_offset st);
      o ← wr (out_parts st) (offset st)
             (if Add then _mm_add_ps a b else _mm_sub_ps a b);
      Some (mk_add_sub_state o (u8 (offset st + 1)) (u8 (lhs_offset st + 1))
                             (u8 (rhs_offset st + 1)))
    else
      a ← rd (parts this) (lhs_offset st);
      o ← wr (out_parts st) (offset st) a;
      Some (mk_add_sub_state o (u8 (offset st + 1)) (u8 (lhs_offset st + 1))
                             (rhs_offset st))
  else
    if nz (Z.land PMask2 m) then
      b ← rd (parts other) (rhs_offset st);
      o ← wr (out_parts st) (offset st) (if Add then b else _mm_xor_ps_sign b);
      Some (mk_add_sub_state o (u8 (offset st + 1)) (lhs_offset st)
                             (u8 (rhs_offset st + 1)))
    else Some st.

Definition add_sub (Add : bool) (this other : entity) : option entity :=
  let pmask := u8 (Z.lor (partition_mask this) (partition_mask other)) in
  let out := default_entity pmask in
  st ← mask_loop loop_fuel (add_sub_body Add this other) 1
          (mk_add_sub_state (parts out) 0 0 0);
  Some (mk_entity pmask (out_parts st)).

Definition operator_plus : entity -> entity -> option entity := add_sub true.
Definition operator_minus : entity -> entity -> option entity := add_sub false.

(** *** [add_sub<Add>(other) &&], the overload for a mutable rvalue *)

Record in_place_state := mk_in_place_state
  { own_parts : list partition; ip_offset : Z; ip_rhs_offset : Z }.

Definition add_sub_rvalue_body (Add : bool) (other : entity) (m : Z) (st : in_place_state)
  : option in_place_state :=
  let PMask2 := partition_mask other in
  if nz (Z.land PMask2 m) then
    a ← rd (own_parts st) (ip_offset st);
    b ← rd (parts other) (ip_rhs_offset st);
    o ← wr (own_parts st) (ip_offset st)
           (if Add then _mm_add_ps a b else _mm_sub_ps a b);
    Some (mk_in_place_state o (u8 (ip_offset st + 1)) (u8 (ip_rhs_offset st + 1)))
  else Some st.

Definition add_sub_rvalue (Add : bool) (this other : entity) : option entity :=
  let PMask := partition_mask this in
  let pmask := u8 (Z.lor PMask (partition_mask other)) in
  if pmask =? PMask then
    st ← mask_loop loop_fuel (add_sub_rvalue_body Add other) 1
            (mk_in_place_state (parts this) 0 0);
    copy (mk_entity PMask (own_parts st))
  else
    add_sub Add this other.

End Engine.

(** ** The geometric product, [operator*] *)

(** The result types of the partition-pair kernels.  They are declared in
    [detail/prstar_gp.hpp]; the members are the ones [operator*] reads. *)
Record p1p2 := mk_p1p2 { p1p2_p1 : __m128; p1p2_p2 : __m128 }.
Record p0p3 := mk_p0p3 { p0p3_p0 : __m128; p0p3_p3 : __m128 }.

(** The kernels that [operator*] calls, with the result types it uses them
    at.  Their bodies are in [detail/prstar_gp.hpp]; the dispatch below is
    stated for an arbitrary family. *)
Record kernels := mk_kernels
  { gp00 : __m128 -> __m128 -> p1p2;  gp01 : __m128 -> __m128 -> p0p3;
    gp02 : __m128 -> __m128 -> p0p3;  gp03 : __m128 -> __m128 -> p1p2;
    gp10 : __m128 -> __m128 -> p0p3;  gp11 : __m128 -> __m128 -> __m128;
    gp12 : __m128 -> __m128 -> __m128; gp13 : __m128 -> __m128 -> p0p3;
    gp20 : __m128 -> __m128 -> p0p3;  gp21 : __m128 -> __m128 -> __m128;
    gp23 : __m128 -> __m128 -> p0p3;
    gp30 : __m128 -> __m128 -> p1p2;  gp31 : __m128 -> __m128 -> p0p3;
    gp32 : __m128 -> __m128 -> p0p3;  gp33 : __m128 -> __m128 -> p1p2 }.

(** Names for the call sites, so that a run can record which kernels it
    invoked. *)
Inductive kernel_id :=
| GP00 | GP01 | GP02 | GP03
| GP10 | GP11 | GP12 | GP13
| GP20 | GP21 | GP23
| GP30 | GP31 | GP32 | GP33.

(** (slot of the left operand, slot of the right operand) *)
Definition kernel_slots (k : kernel_id) : Z * Z :=
  match k with
  | GP00 => (0, 0) | GP01 => (0, 1) | GP02 => (0, 2) | GP03 => (0, 3)
  | GP10 => (1, 0) | GP11 => (1, 1) | GP12 => (1, 2) | GP13 => (1, 3)
  | GP20 => (2, 0) | GP21 => (2, 1) | GP23 => (2, 3)
  | GP30 => (3, 0) | GP31 => (3, 1) | GP32 => (3, 2) | GP33 => (3, 3)
  end.

(** The four accumulators of [operator*], and the kernels invoked so far
    (oldest first); the latter is bookkeeping of the model. *)
Record gp_state := mk_gp_state
  { p0_ : __m128; p1_ : __m128; p2_ : __m128; p3_ : __m128;
    invoked : list kernel_id }.

(** [p1_ = r.p1; p2_ = r.p2;] and [p0_ = r.p0; p3_ = r.p3;] *)
Definition assign_p1p2 (id : kernel_id) (r : p1p2) (s : gp_state) : gp_state :=
  mk_gp_state (p0_ s) (p1p2_p1 r) (p1p2_p2 r) (p3_ s) (invoked s ++ [id]).
Definition assign_p0p3 (id : kernel_id) (r : p0p3) (s : gp_state) : gp_state :=
  mk_gp_state (p0p3_p0 r) (p1_ s) (p2_ s) (p0p3_p3 r) (invoked s ++ [id]).
(** [p1_ = _mm_add_ps(p1_, r.p1); p2_ = _mm_add_ps(p2_, r.p2);] and so on. *)
Definition accum_p1p2 (id : kernel_id) (r : p1p2) (s : gp_state) : gp_state :=
  mk_gp_state (p0_ s) (_mm_add_ps (p1_ s) (p1p2_p1 r)) (_mm_add_ps (p2_ s) (p1p2_p2 r))
              (p3_ s) (invoked s ++ [id]).
Definition accum_p0p3 (id : kernel_id) (r : p0p3) (s : gp_state) : gp_state :=
  mk_gp_state (_mm_add_ps (p0_ s) (p0p3_p0 r)) (p1_ s) (p2_ s)
              (_mm_add_ps (p3_ s) (p0p3_p3 r)) (invoked s ++ [id]).
Definition accum_p1 (id : kernel_id) (r : __m128) (s : gp_state) : gp_state :=
  mk_gp_state (p0_ s) (_mm_add_ps (p1_ s) r) (p2_ s) (p3_ s) (invoked s ++ [id]).
Definition accum_p2 (id : kernel_id) (r : __m128) (s : gp_state) : gp_state :=
  mk_gp_state (p0_ s) (p1_ s) (_mm_add_ps (p2_ s) r) (p3_ s) (invoked s ++ [id]).

(** The four output-mask flags, as the source writes them.  The literal in
    the first operand of [p1_set] and [p2_set] is the decimal [1001]. *)
Definition p0_set (PMask PMask2 : Z) : bool :=
  (nz (Z.land PMask 1) && nz (Z.land PMask2 6))
  || (nz (Z.land PMask 6) && nz (Z.land PMask2 1))
  || (nz (Z.land PMask 2) && nz (Z.land PMask2 8))
  || (nz (Z.land PMask 8) && nz (Z.land PMask2 2)).
Definition p1_set (PMask PMask2 : Z) : bool :=
  (nz (Z.land PMask 1001) && nz (Z.land PMask2 9))
  || (nz (Z.land PMask 2) && nz (Z.land PMask2 2)).
Definition p2_set (PMask PMask2 : Z) : bool :=
  (nz (Z.land PMask 1001) && nz (Z.land PMask2 9))
  || (nz (Z.land PMask 2) && nz (Z.land PMask2 4))
  || (nz (Z.land PMask 4) && nz (Z.land PMask2 2)).
Definition p3_set (PMask PMask2 : Z) : bool :=
  (nz (Z.land PMask 6) && nz (Z.land PMask2 9))
  || (nz (Z.land PMask 9) && nz (Z.land PMask2 6)).

Definition out_mask (PMask PMask2 : Z) : Z :=
  u8 (Z.lor (Z.lor (Z.lor (Z.shiftl (Z.b2z (p3_set PMask PMask2)) 3)
                          (Z.shiftl (Z.b2z (p2_set PMask PMask2)) 2))
                   (Z.shiftl (Z.b2z (p1_set PMask PMask2)) 1))
            (Z.b2z (p0_set PMask PMask2))).

Section Product.

Variable indeterminate : partition.
Variable K : kernels.

(** The accumulation part of [operator*]: the sixteen nested
    [if constexpr] tests, fifteen of which guard a kernel call. *)
Definition gp_accumulate (this rhs : entity) : option gp_state :=
  let PMask := partition_mask this in
  let PMask2 := partition_mask rhs in
  let z := _mm_set1_ps F32.zero in
  s ← Some (mk_gp_state z z z z []);
  s ← when (has PMask 1) (fun s =>
        s ← when (has PMask2 1) (fun s =>
              a ← p0 this; b ← p0 rhs; Some (assign_p1p2 GP00 (gp00 K a b) s)) s;
        s ← when (has PMask2 2) (fun s =>
              a ← p0 this; b ← p1 rhs; Some (assign_p0p3 GP01 (gp01 K a b) s)) s;
        s ← when (has PMask2 4) (fun s =>
              a ← p0 this; b ← p2 rhs; Some (accum_p0p3 GP02 (gp02 K a b) s)) s;
        when (has PMask2 8) (fun s =>
              a ← p0 this; b ← p3 rhs; Some (accum_p1p2 GP03 (gp03 K a b) s)) s) s;
  s ← when (has PMask 2) (fun s =>
        s ← when (has PMask2 1) (fun s =>
              a ← p1 this; b ← p0 rhs; Some (accum_p0p3 GP10 (gp10 K a b) s)) s;
        s ← when (has PMask2 2) (fun s =>
              a ← p1 this; b ← p1 rhs; Some (accum_p1 GP11 (gp11 K a b) s)) s;
        s ← when (has PMask2 4) (fun s =>
              a ← p1 this; b ← p2 rhs; Some (accum_p2 GP12 (gp12 K a b) s)) s;
        when (has PMask2 8) (fun s =>
              a ← p1 this; b ← p3 rhs; Some (accum_p0p3 GP13 (gp13 K a b) s)) s) s;
  s ← when (has PMask 4) (fun s =>
        s ← when (has PMask2 1) (fun s =>
              a ← p2 this; b ← p0 rhs; Some (accum_p0p3 GP20 (gp20 K a b) s)) s;
        s ← when (has PMask2 2) (fun s =>
              a ← p2 this; b ← p1 rhs; Some (accum_p2 GP21 (gp21 K a b) s)) s;
        when (has PMask2 8) (fun s =>
              a ← p2 this; b ← p3 rhs; Some (accum_p0p3 GP23 (gp23 K a b) s)) s) s;
  when (has PMask 8) (fun s =>
        s ← when (has PMask2 1) (fun s =>
              a ← p3 this; b ← p0 rhs; Some (accum_p1p2 GP30 (gp30 K a b) s)) s;
        s ← when (has PMask2 2) (fun s =>
              a ← p3 this; b ← p1 rhs; Some (accum_p0p3 GP31 (gp31 K a b) s)) s;
        s ← when (has PMask2 4) (fun s =>
              a ← p3 this; b ← p2 rhs; Some (accum_p0p3 GP32 (gp32 K a b) s)) s;
        when (has PMask2 8) (fun s =>
              a ← p3 this; b ← p3 rhs; Some (accum_p1p2 GP33 (gp33 K a b) s)) s) s.

(** The whole operator: the entity it returns and the kernels it invoked. *)
Definition operator_star_run (this rhs : entity) : option (entity * list kernel_id) :=
  let PMask := partition_mask this in
  let PMask2 := partition_mask rhs in
  s ← gp_accumulate this rhs;
  out ← Some (default_entity indeterminate (out_mask PMask PMask2));
  out ← when (p0_set PMask PMask2) (fun out => set_part 0 out (p0_ s)) out;
  out ← when (p1_set PMask PMask2) (fun out => set_part 1 out (p1_ s)) out;
  out ← when (p2_set PMask PMask2) (fun out => set_part 2 out (p2_ s)) out;
  out ← when (p3_set PMask PMask2) (fun out => set_part 3 out (p3_ s)) out;
  Some (out, invoked s).

Definition operator_star (this rhs : entity) : option entity :=
  fst <$> operator_star_run this rhs.

End Product.

(** ** Doubles, as far as the header needs them

    The only double in the header is the literal [1e-7], against which a
    float lane is compared after the usual promotion. *)

Module F64.

Definition prec : Z := 53.
Definition emax : Z := 1024.

(** Promotion of a float to double: the same datum, rounded at binary64
    (no rounding error occurs, every binary32 number being a binary64
    number). *)
Definition of_float (x : float) : spec_float :=
  match x with
  | S754_finite s m e => binary_round prec emax s m e
  | _ => x
  end.

(** The double nearest to [10^-7]: [0x3E7AD7F29ABCAF48], that is
    [7555786372591432 * 2^-76]. *)
Definition lit_1e_7 : spec_float := S754_finite false 7555786372591432 (-76).

(** C++ [<] and unary minus on doubles. *)
Definition ltb (x y : spec_float) : bool := SFltb x y.
Definition neg (x : spec_float) : spec_float := SFopp x.

End F64.

(** What a constructor that may [assert] does: it returns, or the process
    aborts. *)
Inductive outcome (A : Type) : Type :=
| Returned (a : A)
| Aborted.
Arguments Returned {A} a.
Arguments Aborted {A}.

(** [p.data[i] = v] and [parts[j].data[i] = v] *)
Definition set_data (p : partition) (i : Z) (v : float) : option partition :=
  if i =? 0 then Some (mk_m128 v (lane1 p) (lane2 p) (lane3 p))
  else if i =? 1 then Some (mk_m128 (lane0 p) v (lane2 p) (lane3 p))
  else if i =? 2 then Some (mk_m128 (lane0 p) (lane1 p) v (lane3 p))
  else if i =? 3 then Some (mk_m128 (lane0 p) (lane1 p) (lane2 p) v)
  else None.

Definition wr_lane (ps : list partition) (j i : Z) (v : float) : option (list partition) :=
  p ← rd ps j; p' ← set_data p i v; wr ps j p'.

(** ** The named entities *)

(** [struct motor final : public entity<0b110>] *)
Module motor.
Definition make (indeterminate : partition) (a b c d e f g h : float) : option entity :=
  let this := default_entity indeterminate 6 in
  ps ← wr_lane (parts this) 0 0 a;
  ps ← wr_lane ps 0 1 b;
  ps ← wr_lane ps 0 2 c;
  ps ← wr_lane ps 0 3 d;
  ps ← wr_lane ps 1 0 e;
  ps ← wr_lane ps 1 1 f;
  ps ← wr_lane ps 1 2 g;
  ps ← wr_lane ps 1 3 h;
  Some (mk_entity 6 ps).
End motor.

(** [struct plane final : public entity<0b1>] *)
Module plane.
Definition make (indeterminate : partition) (a b c d : float) : option entity :=
  let this := default_entity indeterminate 1 in
  ps ← wr (parts this) 0 (_mm_set_ps d a b c);
  Some (mk_entity 1 ps).
End plane.

(** [struct line final : public entity<0b10>] *)
Module line.
(** [line()] *)
Definition default (indeterminate : partition) : option entity :=
  let this := default_entity indeterminate 2 in
  ps ← wr_lane (parts this) 0 0 F32.zero;
  Some (mk_entity 2 ps).
(** [line(float d, float e, float f)] *)
Definition make (indeterminate : partition) (d e f : float) : option entity :=
  let this := default_entity indeterminate 2 in
  ps ← wr (parts this) 0 (_mm_set_ps f e d F32.zero);
  Some (mk_entity 2 ps).
End line.

(** [struct ideal_line final : public entity<0b100>] *)
Module ideal_line.
Definition default (indeterminate : partition) : option entity :=
  let this := default_entity indeterminate 4 in
  ps ← wr_lane (parts this) 0 0 F32.zero;
  Some (mk_entity 4 ps).
Definition make (indeterminate : partition) (a b c : float) : option entity :=
  let this := default_entity indeterminate 4 in
  ps ← wr (parts this) 0 (_mm_set_ps c b a F32.zero);
  Some (mk_entity 4 ps).
End ideal_line.

(** [struct bivector final : public entity<0b110>] *)
Module bivector.
Definition default (indeterminate : partition) : option entity :=
  let this := default_entity indeterminate 6 in
  ps ← wr_lane (parts this) 0 0 F32.zero;
  ps ← wr_lane ps 1 0 F32.zero;
  Some (mk_entity 6 ps).
Definition make (indeterminate : partition) (a b c d e f : float) : option entity :=
  let this := default_entity indeterminate 6 in
  ps ← wr (parts this) 0 (_mm_set_ps f e d F32.zero);
  ps ← wr ps 1 (_mm_set_ps c b a F32.zero);
  Some (mk_entity 6 ps).
(** [bivector(entity<0b110> const& e) : entity{e}] *)
Definition from_entity (indeterminate : partition) (e : entity) : option entity :=
  copy indeterminate e.
End bivector.

(** [struct point final : public entity<0b1000>] *)
Module point.
Definition make (indeterminate : partition) (x y z : float) : option entity :=
  let this := default_entity indeterminate 8 in
  ps ← wr (parts this) 0 (_mm_set_ps x y z F32.one);
  Some (mk_entity 8 ps).
Definition from_entity (indeterminate : partition) (e : entity) : option entity :=
  copy indeterminate e.
Definition x (d : entity) : option float := p ← rd (parts d) 0; data p 3.
Definition y (d : entity) : option float := p ← rd (parts d) 0; data p 2.
Definition z (d : entity) : option float := p ← rd (parts d) 0; data p 1.
End point.

(** [struct direction final : public entity<0b1000>] *)
Module direction.

(** [direction(float x, float y, float z)] *)
Definition make (indeterminate : partition) (x y z : float) : option entity :=
  let this := default_entity indeterminate 8 in
  ps ← wr (parts this) 0 (_mm_set_ps x y z F32.zero);
  Some (mk_entity 8 ps).

(** The condition of the [assert]:
    [parts[0].data[0] < 1e-7 && parts[0].data[0] > -1e-7]. *)
Definition in_bound (x : float) : bool :=
  F64.ltb (F64.of_float x) F64.lit_1e_7
  && F64.ltb (F64.neg F64.lit_1e_7) (F64.of_float x).

(** [direction(entity<0b1000> const& e) : entity{e}], compiled with
    ([PRSTAR_VALIDATE = true]) or without the validation macro. *)
Definition from_entity (indeterminate : partition) (PRSTAR_VALIDATE : bool) (e : entity)
  : option (outcome entity) :=
  this ← copy indeterminate e;
  if PRSTAR_VALIDATE then
    p ← rd (parts this) 0;
    w ← data p 0;
    if in_bound w then Some (Returned this) else Some Aborted
  else Some (Returned this).

(** [operator[](size_t i)]: [parts[0].data[3 - i]], the subtraction being
    done on [size_t] (64 bits). *)
Definition operator_index (d : entity) (i : Z) : option float :=
  p ← rd (parts d) 0; data p ((3 - i) mod 2 ^ 64).

Definition x (d : entity) : option float := p ← rd (parts d) 0; data p 3.
Definition y (d : entity) : option float := p ← rd (parts d) 0; data p 2.
Definition z (d : entity) : option float := p ← rd (parts d) 0; data p 1.

End direction.

(** ** Vocabulary of the statements *)

(** The named coefficients, and the accessor of each. *)
Inductive coefficient :=
| C_scalar | C_e0 | C_e1 | C_e2 | C_e3
| C_e12 | C_e31 | C_e23 | C_e21 | C_e13 | C_e32
| C_e01 | C_e02 | C_e03 | C_e10 | C_e20 | C_e30
| C_e123 | C_e021 | C_e013 | C_e032 | C_e0123.

Definition accessor (c : coefficient) : entity -> option float :=
  match c with
  | C_scalar => scalar | C_e0 => e0 | C_e1 => e1 | C_e2 => e2 | C_e3 => e3
  | C_e12 => e12 | C_e31 => e31 | C_e23 => e23
  | C_e21 => e21 | C_e13 => e13 | C_e32 => e32
  | C_e01 => e01 | C_e02 => e02 | C_e03 => e03
  | C_e10 => e10 | C_e20 => e20 | C_e30 => e30
  | C_e123 => e123 | C_e021 => e021 | C_e013 => e013 | C_e032 => e032
  | C_e0123 => e0123
  end.

(** The slot that carries each coefficient, from the layout table
    ([p0: (e3, e2, e1, e0)], [p1: (1, e12, e31, e23)],
    [p2: (e0123, e01, e02, e03)], [p3: (e123, e021, e013, e032)]). *)
Definition coefficient_slot (c : coefficient) : Z :=
  match c with
  | C_e0 | C_e1 | C_e2 | C_e3 => 0
  | C_scalar | C_e12 | C_e31 | C_e23 | C_e21 | C_e13 | C_e32 => 1
  | C_e0123 | C_e01 | C_e02 | C_e03 | C_e10 | C_e20 | C_e30 => 2
  | C_e123 | C_e021 | C_e013 | C_e032 => 3
  end.

(** The six antisymmetric pairs: slot, base accessor, flipped accessor. *)
Definition dual_pairs : list (Z * (entity -> option float) * (entity -> option float)) :=
  [ (1, e12, e21); (1, e31, e13); (1, e23, e32);
    (2, e01, e10); (2, e02, e20); (2, e03, e30) ].

(** The slot-wise contract of addition and subtraction, in the words of
    the specification. *)
Definition combine_slots (Add : bool) (a b : option partition) : option partition :=
  match a, b with
  | Some a, Some b => Some (if Add then _mm_add_ps a b else _mm_sub_ps a b)
  | Some a, None => Some a
  | None, Some b => Some (if Add then b else negate_all b)
  | None, None => None
  end.

(** The output-mask formulas of the product, in the words of the
    specification. *)
Definition table_p0 (M1 M2 : Z) : bool :=
  (present M1 0 && (present M2 1 || present M2 2))
  || ((present M1 1 || present M1 2) && present M2 0)
  || (present M1 1 && present M2 3)
  || (present M1 3 && present M2 1).
Definition table_p1 (M1 M2 : Z) : bool :=
  ((present M1 0 || present M1 3) && (present M2 0 || present M2 3))
  || (present M1 1 && present M2 1).
Definition table_p2 (M1 M2 : Z) : bool :=
  ((present M1 0 || present M1 3) && (present M2 0 || present M2 3))
  || (present M1 1 && present M2 2)
  || (present M1 2 && present M2 1).
Definition table_p3 (M1 M2 : Z) : bool :=
  ((present M1 1 || present M1 2) && (present M2 0 || present M2 3))
  || ((present M1 0 || present M1 3) && (present M2 1 || present M2 2)).

(** [|x| < 10^-7] over the rationals; a finite [x] has magnitude
    [m * 2^e]. *)
Definition within_1e_7 (x : float) : Prop :=
  match x with
  | S754_zero _ => True
  | S754_finite _ m e => (inject_Z (Zpos m) * 2 ^ e < 1 # 10000000)%Q
  | _ => False
  end.

(** The kernel call sites in the order of the source text. *)
Definition call_sites : list kernel_id :=
  [ GP00; GP01; GP02; GP03; GP10; GP11; GP12; GP13;
    GP20; GP21; GP23; GP30; GP31; GP32; GP33 ].

(** The slots of [M2] are the lowest slots of [M1]: every slot of [M1]
    below a slot of [M2] is a slot of [M2] too. *)
Definition lowest_slots (M1 M2 : Z) : bool :=
  forallb (fun k =>
    negb (present M2 k) ||
    (present M1 k &&
     forallb (fun j => negb ((j <? k) && present M1 j) || present M2 j) [0; 1; 2; 3]))
    [0; 1; 2; 3].

(** The number of slots of [M] below slot [k]. *)
Definition slots_below (M k : Z) : nat :=
  length (List.filter (fun j => (j <? k) && present M j) [0; 1; 2; 3]).


(** The entity without partitions. *)
Definition empty_entity : entity := mk_entity 0 [].

(** Where [operator*] puts the result of each kernel: the [p1p2] kernels
    go to the accumulators of p1 and p2, the [p0p3] kernels to those of p0
    and p3, [gp11] to p1, [gp12] and [gp21] to p2. *)
Definition kernel_writes (id : kernel_id) (k : Z) : bool :=
  match id with
  | GP00 | GP03 | GP30 | GP33 => (k =? 1) || (k =? 2)
  | GP01 | GP02 | GP10 | GP13 | GP20 | GP23 | GP31 | GP32 => (k =? 0) || (k =? 3)
  | GP11 => k =? 1
  | GP12 | GP21 => k =? 2
  end.

Definition is_gp23_gp32 (id : kernel_id) : bool :=
  match id with GP23 | GP32 => true | _ => false end.

(** ** Concrete data for the examples *)

Module Sample.
Definition two : float := S754_finite false 8388608 (-22).
Definition three : float := S754_finite false 12582912 (-22).
Definition four : float := S754_finite false 8388608 (-21).
Definition zeros : partition := _mm_set1_ps F32.zero.
Definition ones : partition := _mm_set1_ps F32.one.
Definition ramp : partition := _mm_set_ps three two F32.one F32.zero.
(** Stand-ins for the kernels of [detail/prstar_gp.hpp], to run the
    dispatch on concrete operands. *)
Definition stub : kernels :=
  let k12 a b := mk_p1p2 (_mm_add_ps a b) (_mm_sub_ps a b) in
  let k03 a b := mk_p0p3 (_mm_mul_ps a b) (_mm_add_ps a b) in
  mk_kernels k12 k03 k03 k12 k03 _mm_mul_ps _mm_mul_ps k03
             k03 _mm_mul_ps k03 k12 k03 k03 k12.
Definition a_plane : entity := mk_entity 1 [ramp].
Definition a_line : entity := mk_entity 2 [ramp].
Definition an_ideal_line : entity := mk_entity 4 [ramp].
Definition a_point : entity := mk_entity 8 [ones].
Definition a_motor : entity := mk_entity 6 [ramp; ones].
Definition a_multivector : entity := mk_entity 15 [ramp; ones; ramp; ones].
End Sample.

(** * Facts about the lanes *)

Module F32Facts.
Import F32.

Lemma digits_scaled (m : positive) :
  Zdigits2 (Zpos (8388608 * m)) = Zpos (digits2_pos m) + 23.
Proof.
  lazy [Pos.mul]. cbn [Zdigits2 digits2_pos].
  generalize (digits2_pos m). intros d. lia.
Qed.

Lemma shr_scaled (m : positive) (e : Z) :
  shr (Build_shr_record (Zpos (8388608 * m)) false false) e 23
  = (Build_shr_record (Zpos m) false false, e + 23).
Proof. reflexivity. Qed.

(** Rounding [m * 2^23 * 2^(e-23)] to binary32 gives back [m * 2^e]. *)
Lemma round_scaled (s : bool) (m : positive) (e : Z) :
  bounded prec emax m e = true ->
  binary_round_aux prec emax s (Zpos (m * 8388608)) (e + -23) loc_Exact
  = S754_finite s m e.
Proof.
  unfold prec, emax, bounded, canonical_mantissa.
  intros [Hc He]%andb_true_iff. apply Z.eqb_eq in Hc.
  rewrite Pos.mul_comm. unfold binary_round_aux, shr_fexp.
  rewrite digits_scaled.
  replace (Z.pos (digits2_pos m) + 23 + (e + -23)) with (Z.pos (digits2_pos m) + e) by lia.
  rewrite Hc. replace (e - (e + -23)) with 23 by lia.
  unfold shr_record_of_loc. rewrite shr_scaled.
  cbn [shr_m loc_of_shr_record round_nearest_even].
  replace (e + -23 + 23) with e by lia.
  cbn [Zdigits2]. rewrite Hc, Z.sub_diag. cbn [shr shr_m].
  now rewrite He.
Qed.

Lemma mul_one_r (x : float) : valid x -> mul x one = x.
Proof.
  destruct x as [[]|[]| |s m e]; intros Hx; try reflexivity.
  unfold valid in Hx. cbn in Hx |- *.
  rewrite round_scaled by exact Hx. destruct s; reflexivity.
Qed.

Lemma mul_neg_one_r (x : float) : valid x -> mul x neg_one = neg x.
Proof.
  destruct x as [[]|[]| |s m e]; intros Hx; try reflexivity.
  unfold valid in Hx. cbn in Hx |- *.
  rewrite round_scaled by exact Hx. destruct s; reflexivity.
Qed.

Lemma neg_involutive (x : float) : neg (neg x) = x.
Proof. destruct x as [[]|[]| |[] m e]; reflexivity. Qed.

Lemma neg_valid (x : float) : valid x -> valid (neg x).
Proof. now destruct x. Qed.

Lemma eqb_refl (x : float) : is_nan x = false -> eqb x x = true.
Proof.
  destruct x as [[]|[]| |s m e]; intros Hn; try reflexivity; try discriminate.
  unfold eqb, SFeqb. cbn.
  rewrite Z.compare_refl, Pos.compare_cont_refl. destruct s; reflexivity.
Qed.

Lemma eqb_neg_refl (x : float) : is_nan x = false -> eqb (neg x) (neg x) = true.
Proof. intros Hn. apply eqb_refl. now destruct x. Qed.

(** IEEE addition is commutative, subtraction is addition of the
    opposite. *)
Lemma add_comm (x y : float) : add x y = add y x.
Proof.
  destruct x as [[]|[]| |sx mx ex], y as [[]|[]| |sy my ey]; try reflexivity.
  unfold add, SFadd. rewrite (Z.min_comm ey ex). f_equal. apply Z.add_comm.
Qed.

Lemma sub_add_neg (x y : float) : sub x y = add x (neg y).
Proof.
  destruct x as [[]|[]| |sx mx ex], y as [[]|[]| |sy my ey]; try reflexivity.
  unfold sub, add, neg, SFsub, SFadd, SFopp. f_equal.
  destruct sy; cbn [negb cond_Zopp]; lia.
Qed.

End F32Facts.

(** * Facts about masks and storage *)

Lemma land_pow2 (M k : Z) :
  0 <= k -> Z.land M (2 ^ k) = if Z.testbit M k then 2 ^ k else 0.
Proof.
  intros Hk. apply Z.bits_inj'. intros n Hn.
  rewrite Z.land_spec, Z.pow2_bits_eqb by lia.
  destruct (Z.eqb_spec k n) as [->|Hne].
  - destruct (Z.testbit M n) eqn:E; rewrite ?Z.pow2_bits_eqb, ?Z.bits_0 by lia;
      rewrite ?Z.eqb_refl; reflexivity.
  - rewrite andb_false_r.
    destruct (Z.testbit M k); rewrite ?Z.pow2_bits_eqb, ?Z.bits_0 by lia; [|reflexivity].
    symmetry. now apply Z.eqb_neq.
Qed.

Lemma has_present (M k : Z) : 0 <= k -> has M (2 ^ k) = present M k.
Proof.
  intros Hk. unfold has, present. rewrite land_pow2 by exact Hk.
  destruct (Z.testbit M k); [|reflexivity].
  apply Z.gtb_gt. apply Z.lt_gt. apply Z.pow_pos_nonneg; lia.
Qed.

Lemma mask4_cases (M : Z) :
  mask4 M ->
  M = 0 \/ M = 1 \/ M = 2 \/ M = 3 \/ M = 4 \/ M = 5 \/ M = 6 \/ M = 7 \/
  M = 8 \/ M = 9 \/ M = 10 \/ M = 11 \/ M = 12 \/ M = 13 \/ M = 14 \/ M = 15.
Proof. unfold mask4. lia. Qed.

Lemma slot_cases (k : Z) : 0 <= k < 4 -> k = 0 \/ k = 1 \/ k = 2 \/ k = 3.
Proof. lia. Qed.

(** Split a well-formed entity into its sixteen shapes: the mask becomes a
    literal and the storage a list of that many partitions. *)
Ltac count_parts H :=
  match type of H with
  | _ = partition_count ?m =>
      let c := eval vm_compute in (partition_count m) in
      change (partition_count m) with c in H
  end.

Ltac wf_cases A H :=
  let M := fresh "M" in
  let ps := fresh "ps" in
  let Hm := fresh "Hm" in
  let Hl := fresh "Hl" in
  destruct A as [M ps]; destruct H as [Hm Hl];
  cbn [partition_mask parts] in Hm, Hl;
  apply mask4_cases in Hm;
  repeat (destruct Hm as [Hm|Hm]); subst M; count_parts Hl;
  (let q0 := fresh "q" in let q1 := fresh "q" in let q2 := fresh "q" in
   let q3 := fresh "q" in let q4 := fresh "q" in
   destruct ps as [|q0 [|q1 [|q2 [|q3 [|q4 ?]]]]];
   cbn [length] in Hl; try (exfalso; lia));
  clear Hl.

Ltac valid_inv H :=
  unfold valid_entity in H; cbn [parts] in H;
  repeat match goal with
         | H : Forall _ (_ :: _) |- _ => apply Forall_cons in H as [? H]
         | H : Forall _ [] |- _ => clear H
         end.

(** Evaluate an operator on an entity of known shape, leaving the lane
    arithmetic and the kernels alone. *)
Ltac run :=
  cbv -[_mm_add_ps _mm_sub_ps _mm_mul_ps _mm_xor_ps_sign _mm_set_ps _mm_set1_ps
        negate_high negate_all F32.zero F32.one F32.neg_one
        gp00 gp01 gp02 gp03 gp10 gp11 gp12 gp13 gp20 gp21 gp23 gp30 gp31 gp32 gp33
        p1p2_p1 p1p2_p2 p0p3_p0 p0p3_p3].

Lemma mul_signs_high (a : __m128) :
  valid_partition a ->
  _mm_mul_ps a (_mm_set_ps F32.neg_one F32.neg_one F32.neg_one F32.one) = negate_high a.
Proof.
  intros (H0 & H1 & H2 & H3). unfold _mm_mul_ps, lanewise, negate_high, _mm_set_ps.
  cbn [lane0 lane1 lane2 lane3].
  now rewrite F32Facts.mul_one_r, !F32Facts.mul_neg_one_r.
Qed.

Lemma mul_signs_all (a : __m128) :
  valid_partition a -> _mm_mul_ps a (_mm_set1_ps F32.neg_one) = negate_all a.
Proof.
  intros (H0 & H1 & H2 & H3). unfold _mm_mul_ps, lanewise, negate_all, _mm_set1_ps.
  cbn [lane0 lane1 lane2 lane3].
  now rewrite !F32Facts.mul_neg_one_r.
Qed.

Lemma negate_high_involutive (a : __m128) : negate_high (negate_high a) = a.
Proof. destruct a. unfold negate_high. cbn. now rewrite !F32Facts.neg_involutive. Qed.

Lemma negate_all_involutive (a : __m128) : negate_all (negate_all a) = a.
Proof. destruct a. unfold negate_all. cbn. now rewrite !F32Facts.neg_involutive. Qed.

Lemma negate_high_valid (a : __m128) : valid_partition a -> valid_partition (negate_high a).
Proof. intros (H0 & H1 & H2 & H3). repeat split; cbn; auto using F32Facts.neg_valid. Qed.

Lemma negate_all_valid (a : __m128) : valid_partition a -> valid_partition (negate_all a).
Proof. intros (H0 & H1 & H2 & H3). repeat split; cbn; auto using F32Facts.neg_valid. Qed.

Lemma mm_add_comm (a b : __m128) : _mm_add_ps a b = _mm_add_ps b a.
Proof.
  unfold _mm_add_ps, lanewise. f_equal; apply F32Facts.add_comm.
Qed.

Lemma mm_sub_add_neg (a b : __m128) : _mm_sub_ps a b = _mm_add_ps a (negate_all b).
Proof.
  unfold _mm_sub_ps, _mm_add_ps, lanewise, negate_all. cbn [lane0 lane1 lane2 lane3].
  f_equal; apply F32Facts.sub_add_neg.
Qed.

(** Concrete side conditions. *)
Lemma sample_wf :
  wf Sample.a_plane /\ wf Sample.a_line /\ wf Sample.an_ideal_line /\
  wf Sample.a_point /\ wf Sample.a_motor /\ wf Sample.a_multivector.
Proof. repeat split; vm_compute; congruence. Qed.

Lemma sample_valid :
  valid_partition Sample.zeros /\ valid_partition Sample.ones /\ valid_partition Sample.ramp.
Proof. repeat split. Qed.

(** * The geometric product: output mask and dispatch *)

Ltac wf_now := split; [vm_compute; split; [discriminate | reflexivity] | reflexivity].

(** C1: for operands with (4-bit) masks M1 and M2 the product returns an
    entity whose storage matches its mask and whose mask has p0, p1, p2, p3
    exactly where the four formulas of the specification say, and no other
    bit.  (On 4-bit masks the decimal literal [1001] of the source selects the
    same bits as [0b1001].) *)
Theorem product_mask (indeterminate : partition) (K : kernels) (A B : entity) :
  wf A -> wf B ->
  exists out,
    operator_star indeterminate K A B = Some out /\
    wf out /\
    present (partition_mask out) 0 = table_p0 (partition_mask A) (partition_mask B) /\
    present (partition_mask out) 1 = table_p1 (partition_mask A) (partition_mask B) /\
    present (partition_mask out) 2 = table_p2 (partition_mask A) (partition_mask B) /\
    present (partition_mask out) 3 = table_p3 (partition_mask A) (partition_mask B).
Proof.
  intros HA HB. wf_cases A HA; wf_cases B HB.
  all: eexists; split; [ run; reflexivity | ].
  all: split; [ split; [ vm_compute; split; congruence | reflexivity ] | ].
  all: repeat split; reflexivity.
Qed.

Lemma product_mask_witness :
  (wf Sample.a_motor /\ wf Sample.a_point) /\
  exists out,
    operator_star Sample.zeros Sample.stub Sample.a_motor Sample.a_point = Some out /\
    wf out /\
    present (partition_mask out) 0 = table_p0 6 8 /\
    present (partition_mask out) 1 = table_p1 6 8 /\
    present (partition_mask out) 2 = table_p2 6 8 /\
    present (partition_mask out) 3 = table_p3 6 8.
Proof.
  split; [split; wf_now |].
  apply (product_mask Sample.zeros Sample.stub Sample.a_motor Sample.a_point); wf_now.
Defined.

(** C2, as stated, fails: with only p2 on the left and only p3 on the right
    the kernel [gp23] is invoked and the result has a slot (p3). *)
Lemma p2_p3_invokes_gp23 :
  ~ (forall (indeterminate : partition) (K : kernels) (A B : entity),
        wf A -> wf B -> partition_mask A = 4 -> partition_mask B = 8 ->
        exists out calls,
          operator_star_run indeterminate K A B = Some (out, calls) /\
          ~ In GP23 calls /\ parts out = []).
Proof.
  intros H.
  destruct (H Sample.zeros Sample.stub Sample.an_ideal_line Sample.a_point)
    as (out & calls & Hrun & Hno & Hparts); try wf_now; try reflexivity.
  vm_compute in Hrun. inversion Hrun; subst. apply Hno. now left.
Qed.

(** C2, amended: the pair that contributes nothing is p2 with p2.  With only
    p2 on either side no kernel is invoked and the result has no slot. *)
Theorem p2_p2_contributes_nothing
  (indeterminate : partition) (K : kernels) (A B : entity) :
  wf A -> wf B -> partition_mask A = 4 -> partition_mask B = 4 ->
  operator_star_run indeterminate K A B = Some (mk_entity 0 [], []).
Proof.
  intros HA HB EA EB. wf_cases A HA; try discriminate EA.
  wf_cases B HB; try discriminate EB. reflexivity.
Qed.

Lemma p2_p2_contributes_nothing_witness :
  (wf Sample.an_ideal_line /\ partition_mask Sample.an_ideal_line = 4) /\
  operator_star_run Sample.zeros Sample.stub Sample.an_ideal_line Sample.an_ideal_line
  = Some (mk_entity 0 [], []).
Proof.
  split; [split; [wf_now | reflexivity] |].
  apply (p2_p2_contributes_nothing Sample.zeros Sample.stub
           Sample.an_ideal_line Sample.an_ideal_line);
    try wf_now; reflexivity.
Defined.

(** * Addition and subtraction *)

(** C3: [A + B] and [A - B] return an entity of mask [M1 | M2] whose storage
    matches that mask, and slot by slot: sum or difference where both
    operands have the slot, the left partition where only the left has it,
    the right partition (sum) or its negation (difference) where only the
    right has it, nothing where neither has it. *)
Theorem add_sub_slots (indeterminate : partition) (Add : bool) (A B : entity) :
  wf A -> wf B ->
  exists out,
    add_sub indeterminate Add A B = Some out /\
    partition_mask out = Z.lor (partition_mask A) (partition_mask B) /\
    wf out /\
    forall k, 0 <= k < 4 ->
      slot out k = combine_slots Add (slot A k) (slot B k).
Proof.
  intros HA HB. wf_cases A HA; wf_cases B HB.
  all: eexists; split; [ run; reflexivity | ].
  all: split; [ reflexivity | ].
  all: split; [ split; [ vm_compute; split; congruence | reflexivity ] | ].
  all: intros k Hk; apply slot_cases in Hk;
       destruct Hk as [->|[->|[->| ->]]]; destruct Add; reflexivity.
Qed.

Lemma add_sub_slots_witness :
  (wf Sample.a_motor /\ wf Sample.a_point) /\
  exists out,
    add_sub Sample.zeros false Sample.a_motor Sample.a_point = Some out /\
    partition_mask out = Z.lor 6 8 /\
    wf out /\
    forall k, 0 <= k < 4 ->
      slot out k = combine_slots false (slot Sample.a_motor k) (slot Sample.a_point k).
Proof.
  split; [split; wf_now |].
  apply (add_sub_slots Sample.zeros false Sample.a_motor Sample.a_point); wf_now.
Defined.

(** C6: the overload for rvalues does not agree with the one for lvalues.
    With p0 and p1 on the left and only p1 on the right the result mask is
    the receiver's, so the in-place path runs; it adds the right operand's
    p1 into the receiver's first partition (its p0), the other overload into
    the second. *)
Theorem rvalue_in_place_diverges :
  let A := mk_entity 3 [Sample.zeros; Sample.zeros] in
  let B := mk_entity 2 [Sample.ones] in
  wf A /\ wf B /\
  u8 (Z.lor (partition_mask A) (partition_mask B)) = partition_mask A /\
  add_sub Sample.zeros true A B = Some (mk_entity 3 [Sample.zeros; Sample.ones]) /\
  add_sub_rvalue Sample.zeros true A B = Some (mk_entity 3 [Sample.ones; Sample.zeros]).
Proof. vm_compute. intuition congruence. Qed.

(** * Reversion *)

(** C4: [~A] has the mask of [A]; it keeps p0, keeps lane 0 of p1 and of p2
    and negates their lanes 1..3, negates all of p3, and has no slot that
    [A] lacks.  The lanes are binary32 data. *)
Theorem reversion_slots (indeterminate : partition) (A : entity) :
  wf A -> valid_entity A ->
  exists out,
    operator_tilde indeterminate A = Some out /\
    partition_mask out = partition_mask A /\
    wf out /\
    slot out 0 = slot A 0 /\
    slot out 1 = negate_high <$> slot A 1 /\
    slot out 2 = negate_high <$> slot A 2 /\
    slot out 3 = negate_all <$> slot A 3.
Proof.
  intros Hwf Hv. wf_cases A Hwf; valid_inv Hv.
  all: eexists; split;
    [ run; rewrite ?mul_signs_high, ?mul_signs_all by assumption; reflexivity
    | repeat split; try (vm_compute; congruence) ].
Qed.

Lemma reversion_slots_witness :
  (wf Sample.a_multivector /\ valid_entity Sample.a_multivector) /\
  exists out,
    operator_tilde Sample.zeros Sample.a_multivector = Some out /\
    partition_mask out = 15 /\
    wf out /\
    slot out 0 = slot Sample.a_multivector 0 /\
    slot out 1 = negate_high <$> slot Sample.a_multivector 1 /\
    slot out 2 = negate_high <$> slot Sample.a_multivector 2 /\
    slot out 3 = negate_all <$> slot Sample.a_multivector 3.
Proof.
  assert (Hv : valid_entity Sample.a_multivector)
    by (repeat (apply List.Forall_cons; [repeat split|]); apply List.Forall_nil).
  split; [split; [wf_now | exact Hv] |].
  apply (reversion_slots Sample.zeros Sample.a_multivector); [wf_now | exact Hv].
Defined.

(** C5: reverting twice gives the entity back, mask and lanes (as IEEE data;
    a NaN lane stays NaN). *)
Theorem reversion_involutive (indeterminate : partition) (A : entity) :
  wf A -> valid_entity A ->
  exists B,
    operator_tilde indeterminate A = Some B /\
    operator_tilde indeterminate B = Some A.
Proof.
  intros Hwf Hv. wf_cases A Hwf; valid_inv Hv.
  all: eexists; split;
    [ run; rewrite ?mul_signs_high, ?mul_signs_all by assumption; reflexivity | ].
  all: run;
    rewrite ?mul_signs_high, ?mul_signs_all by auto using negate_high_valid, negate_all_valid;
    rewrite ?negate_high_involutive, ?negate_all_involutive; reflexivity.
Qed.

Lemma reversion_involutive_witness :
  (wf Sample.a_multivector /\ valid_entity Sample.a_multivector) /\
  exists B,
    operator_tilde Sample.zeros Sample.a_multivector = Some B /\
    operator_tilde Sample.zeros B = Some Sample.a_multivector.
Proof.
  assert (Hv : valid_entity Sample.a_multivector)
    by (repeat (apply List.Forall_cons; [repeat split|]); apply List.Forall_nil).
  split; [split; [wf_now | exact Hv] |].
  apply (reversion_involutive Sample.zeros Sample.a_multivector); [wf_now | exact Hv].
Defined.

(** * Coefficient accessors *)

(** C7: an accessor whose coefficient lives in a slot that the mask lacks
    returns [0.f], for every entity whatever its storage, flipped duals
    included. *)
Theorem accessor_absent_zero (e : entity) (c : coefficient) :
  present (partition_mask e) (coefficient_slot c) = false ->
  accessor c e = Some F32.zero.
Proof.
  intros Habs.
  destruct c; cbn [coefficient_slot] in Habs;
    rewrite <- has_present in Habs by lia;
    cbn [accessor];
    unfold scalar, e0, e1, e2, e3, e12, e31, e23, e21, e13, e32,
           e01, e02, e03, e10, e20, e30, e123, e021, e013, e032, e0123;
    change (2 ^ 0) with 1 in Habs; change (2 ^ 1) with 2 in Habs;
    change (2 ^ 2) with 4 in Habs; change (2 ^ 3) with 8 in Habs;
    rewrite Habs; reflexivity.
Qed.

Lemma accessor_absent_zero_witness :
  present (partition_mask Sample.a_plane) (coefficient_slot C_e21) = false /\
  accessor C_e21 Sample.a_plane = Some F32.zero.
Proof.
  split; [reflexivity |].
  apply (accessor_absent_zero Sample.a_plane C_e21). reflexivity.
Defined.

(** C8: for each antisymmetric pair both accessors return, the flipped one
    returns the negation of the base one when the entity has the slot of the
    pair, and in every case the comparison [flipped == -base] of the source
    language holds unless the coefficient is a NaN. *)
Theorem flipped_duals (e : entity) :
  wf e ->
  Forall (fun '(k, base, flipped) =>
            exists v w,
              base e = Some v /\ flipped e = Some w /\
              (present (partition_mask e) k = true -> w = F32.neg v) /\
              (F32.is_nan v = false -> F32.eqb w (F32.neg v) = true))
         dual_pairs.
Proof.
  intros Hwf. unfold dual_pairs. wf_cases e Hwf.
  all: repeat first [apply List.Forall_nil | apply List.Forall_cons].
  all: do 2 eexists; split; [reflexivity|]; split; [reflexivity|]; split;
    [ intros Hp; first [discriminate Hp | reflexivity]
    | intros Hn; first [reflexivity | apply F32Facts.eqb_neg_refl; exact Hn] ].
Qed.

Lemma flipped_duals_witness :
  wf Sample.a_motor /\
  Forall (fun '(k, base, flipped) =>
            exists v w,
              base Sample.a_motor = Some v /\ flipped Sample.a_motor = Some w /\
              (present (partition_mask Sample.a_motor) k = true -> w = F32.neg v) /\
              (F32.is_nan v = false -> F32.eqb w (F32.neg v) = true))
         dual_pairs.
Proof.
  split; [wf_now |]. apply (flipped_duals Sample.a_motor). wf_now.
Defined.

(** * Directions *)

Module F64Facts.

Lemma magnitude_below_iff (m : positive) (e : Z) :
  (inject_Z (Zpos m) * 2 ^ e < 1 # 10000000)%Q <->
  e < 0 /\ Zpos m * 10000000 < 2 ^ (- e).
Proof.
  destruct e as [|p|p].
  - cbn. unfold Qlt. cbn. lia.
  - assert (Hq : (2 ^ Z.pos p == inject_Z (2 ^ Z.pos p))%Q).
    { rewrite Zpower_Qpower by lia. reflexivity. }
    rewrite Hq, <- inject_Z_mult. unfold Qlt. cbn [Qnum Qden inject_Z].
    assert (0 < 2 ^ Z.pos p) by (apply Z.pow_pos_nonneg; lia). nia.
  - assert (Hq : (2 ^ Z.neg p == / inject_Z (2 ^ Z.pos p))%Q).
    { rewrite Zpower_Qpower by lia. reflexivity. }
    rewrite Hq. change (- Z.neg p) with (Z.pos p).
    assert (Hpos : 0 < 2 ^ Z.pos p) by (apply Z.pow_pos_nonneg; lia).
    destruct (2 ^ Z.pos p) as [|P|P] eqn:EP; try lia.
    unfold Qlt, Qinv. cbn. lia.
Qed.

Lemma digits2_bounds (m : positive) :
  2 ^ (Zpos (digits2_pos m) - 1) <= Zpos m < 2 ^ Zpos (digits2_pos m).
Proof.
  induction m as [m IH|m IH|]; cbn [digits2_pos].
  - rewrite Pos2Z.inj_succ, Z.pow_succ_r by lia.
    replace (Z.succ (Z.pos (digits2_pos m)) - 1)
      with (Z.succ (Z.pos (digits2_pos m) - 1)) by lia.
    rewrite Z.pow_succ_r by lia. lia.
  - rewrite Pos2Z.inj_succ, Z.pow_succ_r by lia.
    replace (Z.succ (Z.pos (digits2_pos m)) - 1)
      with (Z.succ (Z.pos (digits2_pos m) - 1)) by lia.
    rewrite Z.pow_succ_r by lia. lia.
  - cbn. lia.
Qed.

Lemma iter_xO_digits (m n : positive) :
  Zpos (digits2_pos (Pos.iter xO m n)) = Zpos (digits2_pos m) + Zpos n.
Proof.
  induction n as [|n IH] using Pos.peano_ind.
  - cbn. lia.
  - rewrite Pos.iter_succ. cbn [digits2_pos]. lia.
Qed.

Lemma iter_xO_value (m n : positive) :
  Zpos (Pos.iter xO m n) = Zpos m * 2 ^ Zpos n.
Proof.
  induction n as [|n IH] using Pos.peano_ind.
  - cbn. lia.
  - rewrite Pos.iter_succ, Pos2Z.inj_succ, Z.pow_succ_r by lia.
    rewrite Pos2Z.inj_xO, IH. lia.
Qed.

(** A binary32 datum has at most 24 digits and an exponent in
    [-149, 104]. *)
Lemma valid_finite_bounds (s : bool) (m : positive) (e : Z) :
  F32.valid (S754_finite s m e) ->
  -149 <= e <= 104 /\ Zpos (digits2_pos m) <= 24 /\
  (e = -149 \/ Zpos (digits2_pos m) = 24).
Proof.
  unfold F32.valid, valid_binary, bounded, canonical_mantissa, fexp, emin,
    F32.prec, F32.emax.
  intros [Hc He]%andb_true_iff. apply Z.eqb_eq in Hc. apply Z.leb_le in He. lia.
Qed.

(** Promotion keeps the value: the mantissa is shifted up to 53 digits. *)
Lemma of_float_finite (s : bool) (m : positive) (e : Z) :
  F32.valid (S754_finite s m e) ->
  exists p : positive,
    Zpos p = 53 - Zpos (digits2_pos m) /\
    F64.of_float (S754_finite s m e) = S754_finite s (Pos.iter xO m p) (e - Zpos p).
Proof.
  intros Hv. destruct (valid_finite_bounds _ _ _ Hv) as (He & Hd & _).
  exists (Z.to_pos (53 - Zpos (digits2_pos m))).
  set (p := Z.to_pos _).
  assert (Hp : Zpos p = 53 - Zpos (digits2_pos m)) by (subst p; lia).
  split; [exact Hp|].
  unfold F64.of_float, binary_round, F64.prec, F64.emax.
  assert (Hf : fexp 53 1024 (Zpos (digits2_pos m) + e) = e - Zpos p).
  { unfold fexp, emin. lia. }
  rewrite Hf. unfold shl_align.
  replace (e - Zpos p - e) with (Zneg p) by lia.
  unfold binary_round_aux, shr_fexp. cbn [Zdigits2 shr_record_of_loc].
  rewrite iter_xO_digits.
  assert (Hf' : fexp 53 1024 (Zpos (digits2_pos m) + Zpos p + (e - Zpos p)) = e - Zpos p).
  { unfold fexp, emin. lia. }
  rewrite Hf', Z.sub_diag. cbn [shr shr_m loc_of_shr_record round_nearest_even Zdigits2].
  rewrite iter_xO_digits, Hf', Z.sub_diag. cbn [shr shr_m].
  replace (e - Zpos p <=? 1024 - 53) with true by (symmetry; apply Z.leb_le; lia).
  reflexivity.
Qed.

Lemma ltb_finite (s1 s2 : bool) (m1 m2 : positive) (x1 x2 : Z) :
  F64.ltb (S754_finite s1 m1 x1) (S754_finite s2 m2 x2) = true <->
  match s1, s2 with
  | true, false => True
  | false, true => False
  | false, false => x1 < x2 \/ (x1 = x2 /\ Zpos m1 < Zpos m2)
  | true, true => x2 < x1 \/ (x1 = x2 /\ Zpos m2 < Zpos m1)
  end.
Proof.
  unfold F64.ltb, SFltb, SFcompare.
  change (Pos.compare_cont Eq m1 m2) with (Pos.compare m1 m2).
  rewrite (Pos2Z.inj_compare m1 m2).
  destruct s1, s2; try (split; [intros _; exact I | reflexivity]);
    try (split; [discriminate | intros []]);
    destruct (Z.compare_spec x1 x2); destruct (Z.compare_spec (Zpos m1) (Zpos m2));
    cbn [CompOpp]; split; intros Hc; try discriminate Hc; try reflexivity; lia.
Qed.

Lemma bound_check_finite (s : bool) (mz : positive) (ez : Z) :
  F64.ltb (S754_finite s mz ez) F64.lit_1e_7
  && F64.ltb (F64.neg F64.lit_1e_7) (S754_finite s mz ez) = true
  <-> ez < -76 \/ (ez = -76 /\ Zpos mz < 7555786372591432).
Proof.
  unfold F64.lit_1e_7, F64.neg. cbn [SFopp negb].
  rewrite andb_true_iff, !ltb_finite. destruct s; intuition lia.
Qed.

(** The check of the source, made on doubles against the double nearest
    to [10^-7], accepts a binary32 lane exactly when its magnitude is below
    [10^-7]: no binary32 number lies between the two thresholds. *)
Lemma in_bound_iff (x : float) :
  F32.valid x -> direction.in_bound x = true <-> within_1e_7 x.
Proof.
  intros Hv. destruct x as [s|s| |s m e].
  - split; [intros _; exact I | intros _; destruct s; reflexivity].
  - split; [destruct s; intros H; discriminate H | intros []].
  - split; [intros H; discriminate H | intros []].
  - destruct (of_float_finite s m e Hv) as (p & Hp & Hof).
    destruct (valid_finite_bounds s m e Hv) as (He & Hd & Hn).
    pose proof (digits2_bounds m) as Hm.
    pose proof (iter_xO_value m p) as Hval.
    unfold direction.in_bound, within_1e_7.
    rewrite Hof, magnitude_below_iff, bound_check_finite.
    rewrite Hval. clear Hof Hval Hv.
    set (d := Zpos (digits2_pos m)) in *.
    assert (Hd1 : 2 ^ d = 2 * 2 ^ (d - 1)).
    { replace d with (Z.succ (d - 1)) at 1 by lia. apply Z.pow_succ_r. lia. }
    assert (Hdpos : 0 < 2 ^ (d - 1)) by (apply Z.pow_pos_nonneg; lia).
    assert (H2p : 0 < 2 ^ Zpos p) by (apply Z.pow_pos_nonneg; lia).
    destruct (Z.lt_trichotomy (e - Zpos p) (-76)) as [Hlt|[Heq|Hgt]].
    + (* promoted exponent below that of the literal: magnitude < 2^-24 *)
      split; [intros _|intros _; left; exact Hlt].
      split; [lia|].
      assert (Hle : 2 ^ (d + 24) <= 2 ^ (- e)) by (apply Z.pow_le_mono_r; lia).
      rewrite Z.pow_add_r in Hle by lia. change (2 ^ 24) with 16777216 in Hle.
      nia.
    + (* same exponent: compare the mantissas *)
      assert (Hsplit : 2 ^ Zpos p = 2 ^ (Zpos p - 29) * 536870912).
      { replace (Zpos p) with ((Zpos p - 29) + 29) at 1 by lia.
        rewrite Z.pow_add_r by lia. reflexivity. }
      assert (Hk : 0 < 2 ^ (Zpos p - 29)) by (apply Z.pow_pos_nonneg; lia).
      assert (H47 : 2 ^ (- e) * 2 ^ (Zpos p - 29) = 140737488355328).
      { rewrite <- Z.pow_add_r by lia.
        replace (- e + (Zpos p - 29)) with 47 by lia. reflexivity. }
      rewrite Hsplit, Z.mul_assoc.
      set (k := Zpos m * 2 ^ (Zpos p - 29)).
      assert (Hiff : Zpos m * 10000000 < 2 ^ (- e) <-> k * 10000000 < 140737488355328).
      { subst k. rewrite <- H47.
        replace (Zpos m * 2 ^ (Zpos p - 29) * 10000000)
          with (Zpos m * 10000000 * 2 ^ (Zpos p - 29)) by ring.
        apply Z.mul_lt_mono_pos_r. exact Hk. }
      rewrite Hiff. lia.
    + (* promoted exponent above that of the literal: magnitude >= 2^-23 *)
      split; [intros [Hc|[Hc _]]; lia|].
      intros [He0 Hw]. exfalso.
      assert (Hle : 2 ^ (- e) <= 2 ^ ((d - 1) + 23)) by (apply Z.pow_le_mono_r; lia).
      rewrite Z.pow_add_r in Hle by lia. change (2 ^ 23) with 8388608 in Hle.
      nia.
Qed.

End F64Facts.

(** C9: converting an [entity<0b1000>] to a direction returns the entity
    whatever it holds when validation is compiled out; with validation the
    constructor returns when the homogeneous lane (lane 0 of p3, [e123]) has
    magnitude below [10^-7] and aborts otherwise (infinities and NaN
    included). *)
Theorem direction_conversion (indeterminate : partition) (e : entity) :
  wf e -> partition_mask e = 8 -> valid_entity e ->
  direction.from_entity indeterminate false e = Some (Returned e) /\
  exists w,
    e123 e = Some w /\
    (within_1e_7 w -> direction.from_entity indeterminate true e = Some (Returned e)) /\
    (~ within_1e_7 w -> direction.from_entity indeterminate true e = Some Aborted).
Proof.
  intros Hwf Hm Hv. wf_cases e Hwf; try discriminate Hm. valid_inv Hv.
  destruct q as [w l1 l2 l3].
  match goal with H : valid_partition _ |- _ => destruct H as (Hw & _) end.
  cbn [lane0] in Hw.
  split; [reflexivity|]. exists w. split; [reflexivity|].
  change (direction.from_entity indeterminate true (mk_entity 8 [mk_m128 w l1 l2 l3]))
    with (if direction.in_bound w
          then Some (Returned (mk_entity 8 [mk_m128 w l1 l2 l3]))
          else Some Aborted).
  pose proof (F64Facts.in_bound_iff w Hw) as Hiff.
  destruct (direction.in_bound w); split; intros Hin.
  - reflexivity.
  - exfalso. apply Hin, Hiff. reflexivity.
  - apply Hiff in Hin. discriminate Hin.
  - reflexivity.
Qed.

Lemma direction_conversion_witness :
  (wf Sample.a_point /\ partition_mask Sample.a_point = 8 /\ valid_entity Sample.a_point) /\
  direction.from_entity Sample.zeros false Sample.a_point = Some (Returned Sample.a_point) /\
  exists w,
    e123 Sample.a_point = Some w /\
    (within_1e_7 w ->
     direction.from_entity Sample.zeros true Sample.a_point = Some (Returned Sample.a_point)) /\
    (~ within_1e_7 w ->
     direction.from_entity Sample.zeros true Sample.a_point = Some Aborted).
Proof.
  assert (Hv : valid_entity Sample.a_point)
    by (repeat (apply List.Forall_cons; [repeat split|]); apply List.Forall_nil).
  split; [split; [wf_now | split; [reflexivity | exact Hv]] |].
  apply (direction_conversion Sample.zeros Sample.a_point); [wf_now | reflexivity | exact Hv].
Defined.

(** C10: [d[i]] reads lane [3 - i] of the partition of [d] for [i] in
    0..3, and for [d = direction(x, y, z)]: [d[0] = x = d.x()],
    [d[1] = y = d.y()], [d[2] = z = d.z()], and [d[3]] is the homogeneous
    lane (which the constructor sets to [0.f]). *)
Theorem direction_index
  (indeterminate : partition) (x y z : float) (d : entity) (p : partition) (i : Z) :
  parts d = [p] -> 0 <= i <= 3 ->
  direction.operator_index d i = data p (3 - i) /\
  exists d',
    direction.make indeterminate x y z = Some d' /\
    direction.operator_index d' 0 = Some x /\ direction.x d' = Some x /\
    direction.operator_index d' 1 = Some y /\ direction.y d' = Some y /\
    direction.operator_index d' 2 = Some z /\ direction.z d' = Some z /\
    direction.operator_index d' 3 = e123 d' /\ e123 d' = Some F32.zero.
Proof.
  intros Hd Hi. split.
  - unfold direction.operator_index. rewrite Hd.
    rewrite Z.mod_small by lia. reflexivity.
  - eexists. split; [reflexivity|]. repeat split; reflexivity.
Qed.

Lemma direction_index_witness :
  (parts Sample.a_point = [Sample.ones] /\ 0 <= 2 <= 3) /\
  direction.operator_index Sample.a_point 2 = data Sample.ones (3 - 2) /\
  exists d',
    direction.make Sample.zeros Sample.three Sample.two F32.one = Some d' /\
    direction.operator_index d' 0 = Some Sample.three /\ direction.x d' = Some Sample.three /\
    direction.operator_index d' 1 = Some Sample.two /\ direction.y d' = Some Sample.two /\
    direction.operator_index d' 2 = Some F32.one /\ direction.z d' = Some F32.one /\
    direction.operator_index d' 3 = e123 d' /\ e123 d' = Some F32.zero.
Proof.
  split; [split; [reflexivity | lia] |].
  apply (direction_index Sample.zeros Sample.three Sample.two F32.one
           Sample.a_point Sample.ones 2); [reflexivity | lia].
Defined.

(** * Further properties of the header *)

(** ** Storage layout *)

(** The raw accessor of slot [k] reads the cell whose index is the number of
    materialized slots below [k]; for a materialized slot that cell exists,
    and the cells are as many as the materialized slots. *)
Theorem storage_layout (e : entity) (k : Z) :
  wf e -> 0 <= k < 4 ->
  partition_count (partition_mask e) = Z.of_nat (slots_below (partition_mask e) 4) /\
  part_at k e = parts e !! slots_below (partition_mask e) k /\
  (present (partition_mask e) k = true -> is_Some (part_at k e)).
Proof.
  intros Hwf Hk. apply slot_cases in Hk. wf_cases e Hwf.
  all: destruct Hk as [->|[->|[->| ->]]].
  all: split; [reflexivity|]; split; [reflexivity|].
  all: intros Hp; first [discriminate Hp | eexists; reflexivity].
Qed.

Lemma storage_layout_witness :
  (wf Sample.a_motor /\ 0 <= 2 < 4) /\
  partition_count 6 = Z.of_nat (slots_below 6 4) /\
  part_at 2 Sample.a_motor = parts Sample.a_motor !! slots_below 6 2 /\
  (present 6 2 = true -> is_Some (part_at 2 Sample.a_motor)).
Proof.
  split; [split; [wf_now | lia] |].
  apply (storage_layout Sample.a_motor 2); [wf_now | lia].
Defined.

(** The raw accessor of a slot that is not materialized does not fail: it
    aliases the next materialized slot, or runs off the end of the storage
    when there is none. *)
Theorem absent_slot_aliases (e : entity) (k : Z) :
  wf e -> 0 <= k < 4 -> present (partition_mask e) k = false ->
  (forall j, k < j < 4 -> present (partition_mask e) j = true ->
     (forall i, k < i < j -> present (partition_mask e) i = false) ->
     part_at k e = part_at j e) /\
  ((forall j, k < j < 4 -> present (partition_mask e) j = false) -> part_at k e = None).
Proof.
  intros Hwf Hk Habs. apply slot_cases in Hk. wf_cases e Hwf.
  all: destruct Hk as [->|[->|[->| ->]]]; try discriminate Habs.
  all: split;
    [ intros j Hj Hp Hgap;
      assert (Hj' : j = 1 \/ j = 2 \/ j = 3) by lia;
      destruct Hj' as [->|[->| ->]]; try lia; try discriminate Hp; try reflexivity;
      exfalso;
      first [ specialize (Hgap 1 ltac:(lia)); discriminate Hgap
            | specialize (Hgap 2 ltac:(lia)); discriminate Hgap ]
    | intros Hnone; try reflexivity; exfalso;
      first [ specialize (Hnone 1 ltac:(lia)); discriminate Hnone
            | specialize (Hnone 2 ltac:(lia)); discriminate Hnone
            | specialize (Hnone 3 ltac:(lia)); discriminate Hnone ] ].
Qed.

Lemma absent_slot_aliases_witness :
  (wf Sample.a_point /\ 0 <= 0 < 4 /\ present 8 0 = false) /\
  (forall j, 0 < j < 4 -> present 8 j = true ->
     (forall i, 0 < i < j -> present 8 i = false) ->
     part_at 0 Sample.a_point = part_at j Sample.a_point) /\
  ((forall j, 0 < j < 4 -> present 8 j = false) -> part_at 0 Sample.a_point = None).
Proof.
  split; [split; [wf_now | split; [lia | reflexivity]] |].
  apply (absent_slot_aliases Sample.a_point 0); [wf_now | lia | reflexivity].
Defined.

(** The copy constructor returns its argument, whatever the fresh storage
    held. *)
Theorem copy_identity (indeterminate : partition) (e : entity) :
  wf e -> copy indeterminate e = Some e.
Proof. intros Hwf. wf_cases e Hwf; reflexivity. Qed.

Lemma copy_identity_witness :
  wf Sample.a_multivector /\ copy Sample.ones Sample.a_multivector = Some Sample.a_multivector.
Proof.
  split; [wf_now |]. apply (copy_identity Sample.ones Sample.a_multivector). wf_now.
Defined.

(** ** Addition and subtraction, continued *)

(** Addition of entities is commutative, masks and lanes. *)
Theorem plus_commutative (indeterminate : partition) (A B : entity) :
  wf A -> wf B ->
  operator_plus indeterminate A B = operator_plus indeterminate B A /\
  is_Some (operator_plus indeterminate A B).
Proof.
  intros HA HB. wf_cases A HA; wf_cases B HB.
  all: split; [| eexists; run; reflexivity].
  all: run; repeat first [reflexivity | apply mm_add_comm | f_equal].
Qed.

Lemma plus_commutative_witness :
  (wf Sample.a_motor /\ wf Sample.a_multivector) /\
  operator_plus Sample.zeros Sample.a_motor Sample.a_multivector
  = operator_plus Sample.zeros Sample.a_multivector Sample.a_motor /\
  is_Some (operator_plus Sample.zeros Sample.a_motor Sample.a_multivector).
Proof.
  split; [split; wf_now |].
  apply (plus_commutative Sample.zeros Sample.a_motor Sample.a_multivector); wf_now.
Defined.

(** Subtracting [B] is adding its negation, the negation being what
    subtraction from the entity without partitions returns: [B]'s mask with
    every lane sign-flipped. *)
Theorem minus_is_plus_negation (indeterminate : partition) (A B : entity) :
  wf A -> wf B ->
  exists nB,
    operator_minus indeterminate empty_entity B = Some nB /\
    nB = mk_entity (partition_mask B) (negate_all <$> parts B) /\
    operator_minus indeterminate A B = operator_plus indeterminate A nB /\
    is_Some (operator_minus indeterminate A B).
Proof.
  intros HA HB. wf_cases A HA; wf_cases B HB.
  all: eexists; split; [run; reflexivity|]; split; [reflexivity|].
  all: split; [| eexists; run; reflexivity].
  all: run; rewrite ?mm_sub_add_neg; reflexivity.
Qed.

Lemma minus_is_plus_negation_witness :
  (wf Sample.a_multivector /\ wf Sample.a_motor) /\
  exists nB,
    operator_minus Sample.zeros empty_entity Sample.a_motor = Some nB /\
    nB = mk_entity (partition_mask Sample.a_motor) (negate_all <$> parts Sample.a_motor) /\
    operator_minus Sample.zeros Sample.a_multivector Sample.a_motor
    = operator_plus Sample.zeros Sample.a_multivector nB /\
    is_Some (operator_minus Sample.zeros Sample.a_multivector Sample.a_motor).
Proof.
  split; [split; wf_now |].
  apply (minus_is_plus_negation Sample.zeros Sample.a_multivector Sample.a_motor); wf_now.
Defined.

(** The entity without partitions is neutral for addition on both sides and
    for subtraction on the right; negating twice gives the entity back. *)
Theorem empty_entity_neutral (indeterminate : partition) (A : entity) :
  wf A ->
  operator_plus indeterminate A empty_entity = Some A /\
  operator_plus indeterminate empty_entity A = Some A /\
  operator_minus indeterminate A empty_entity = Some A /\
  exists nA,
    operator_minus indeterminate empty_entity A = Some nA /\
    operator_minus indeterminate empty_entity nA = Some A.
Proof.
  intros HA. wf_cases A HA.
  all: repeat (split; [reflexivity|]).
  all: eexists; split; [run; reflexivity|].
  all: run; unfold _mm_xor_ps_sign;
    repeat match goal with q : partition |- _ => destruct q end;
    cbn [lane0 lane1 lane2 lane3]; rewrite ?F32Facts.neg_involutive; reflexivity.
Qed.

Lemma empty_entity_neutral_witness :
  wf Sample.a_motor /\
  operator_plus Sample.zeros Sample.a_motor empty_entity = Some Sample.a_motor /\
  operator_plus Sample.zeros empty_entity Sample.a_motor = Some Sample.a_motor /\
  operator_minus Sample.zeros Sample.a_motor empty_entity = Some Sample.a_motor /\
  exists nA,
    operator_minus Sample.zeros empty_entity Sample.a_motor = Some nA /\
    operator_minus Sample.zeros empty_entity nA = Some Sample.a_motor.
Proof.
  split; [wf_now |]. apply (empty_entity_neutral Sample.zeros Sample.a_motor). wf_now.
Defined.

(** The overload for rvalues agrees with the one for lvalues whenever the
    slots of the right operand are the lowest slots of the receiver, equal
    masks included. *)
Theorem rvalue_agrees_on_lowest_slots
  (indeterminate : partition) (Add : bool) (A B : entity) :
  wf A -> wf B -> lowest_slots (partition_mask A) (partition_mask B) = true ->
  add_sub_rvalue indeterminate Add A B = add_sub indeterminate Add A B /\
  is_Some (add_sub_rvalue indeterminate Add A B).
Proof.
  intros HA HB Hlow. wf_cases A HA; wf_cases B HB; try discriminate Hlow.
  all: destruct Add; (split; [reflexivity | eexists; run; reflexivity]).
Qed.

Lemma rvalue_agrees_on_lowest_slots_witness :
  (wf Sample.a_multivector /\ wf (mk_entity 3 [Sample.ones; Sample.ramp]) /\
   lowest_slots 15 3 = true) /\
  add_sub_rvalue Sample.zeros false Sample.a_multivector (mk_entity 3 [Sample.ones; Sample.ramp])
  = add_sub Sample.zeros false Sample.a_multivector (mk_entity 3 [Sample.ones; Sample.ramp]) /\
  is_Some (add_sub_rvalue Sample.zeros false Sample.a_multivector
             (mk_entity 3 [Sample.ones; Sample.ramp])).
Proof.
  split; [split; [wf_now | split; [wf_now | reflexivity]] |].
  apply (rvalue_agrees_on_lowest_slots Sample.zeros false Sample.a_multivector
           (mk_entity 3 [Sample.ones; Sample.ramp])); [wf_now | wf_now | reflexivity].
Defined.

(** In every other case where the in-place path runs (the right mask is
    contained in the receiver's but skips one of its lower slots), the two
    overloads give different entities on a receiver of zeros and a right
    operand of ones. *)
Theorem rvalue_differs_otherwise (M1 M2 : Z) :
  mask4 M1 -> mask4 M2 -> Z.lor M1 M2 = M1 -> lowest_slots M1 M2 = false ->
  add_sub_rvalue Sample.zeros true
    (default_entity Sample.zeros M1) (default_entity Sample.ones M2)
  <> add_sub Sample.zeros true
    (default_entity Sample.zeros M1) (default_entity Sample.ones M2).
Proof.
  intros H1 H2 Hsub Hlow.
  apply mask4_cases in H1. apply mask4_cases in H2.
  repeat (destruct H1 as [H1|H1]); subst M1;
    repeat (destruct H2 as [H2|H2]); subst M2;
    vm_compute in Hsub; try discriminate Hsub;
    vm_compute in Hlow; try discriminate Hlow;
    vm_compute; discriminate.
Qed.

Lemma rvalue_differs_otherwise_witness :
  (mask4 6 /\ mask4 4 /\ Z.lor 6 4 = 6 /\ lowest_slots 6 4 = false) /\
  add_sub_rvalue Sample.zeros true
    (default_entity Sample.zeros 6) (default_entity Sample.ones 4)
  <> add_sub Sample.zeros true
    (default_entity Sample.zeros 6) (default_entity Sample.ones 4).
Proof.
  split; [repeat split; try reflexivity; discriminate |].
  apply (rvalue_differs_otherwise 6 4); try reflexivity; split; try reflexivity; discriminate.
Defined.

(** ** The geometric product, continued *)

(** The product invokes exactly the kernels whose slot pair is present in
    the operands, each once, in the order of the source text; no kernel is
    ever given a slot that an operand lacks. *)
Theorem invoked_call_sites (indeterminate : partition) (K : kernels) (A B : entity) :
  wf A -> wf B ->
  exists out,
    operator_star_run indeterminate K A B
    = Some (out,
            List.filter (fun id => present (partition_mask A) (fst (kernel_slots id))
                                   && present (partition_mask B) (snd (kernel_slots id)))
                        call_sites).
Proof.
  intros HA HB. wf_cases A HA; wf_cases B HB.
  all: eexists; run; reflexivity.
Qed.

Lemma invoked_call_sites_witness :
  (wf Sample.a_motor /\ wf Sample.a_point) /\
  exists out,
    operator_star_run Sample.zeros Sample.stub Sample.a_motor Sample.a_point
    = Some (out,
            List.filter (fun id => present 6 (fst (kernel_slots id))
                                   && present 8 (snd (kernel_slots id)))
                        call_sites).
Proof.
  split; [split; wf_now |].
  apply (invoked_call_sites Sample.zeros Sample.stub Sample.a_motor Sample.a_point); wf_now.
Defined.



(** Output slots against kernel outputs.  Slots p1, p2 and p3 are allocated
    exactly when an invoked kernel writes them.  Slot p0 is allocated exactly
    when an invoked kernel other than [gp23] and [gp32] writes it: the p0
    outputs of those two are accumulated but do not count for the mask, and
    are dropped when no other kernel contributes to p0. *)
Theorem allocated_slots_follow_kernels
  (indeterminate : partition) (K : kernels) (A B : entity) :
  wf A -> wf B ->
  exists out calls,
    operator_star_run indeterminate K A B = Some (out, calls) /\
    present (partition_mask out) 0
    = existsb (fun id => kernel_writes id 0 && negb (is_gp23_gp32 id)) calls /\
    present (partition_mask out) 1 = existsb (fun id => kernel_writes id 1) calls /\
    present (partition_mask out) 2 = existsb (fun id => kernel_writes id 2) calls /\
    present (partition_mask out) 3 = existsb (fun id => kernel_writes id 3) calls.
Proof.
  intros HA HB. wf_cases A HA; wf_cases B HB.
  all: do 2 eexists; split; [run; reflexivity|].
  all: repeat split; reflexivity.
Qed.

Lemma allocated_slots_follow_kernels_witness :
  (wf Sample.an_ideal_line /\ wf Sample.a_point) /\
  exists out calls,
    operator_star_run Sample.zeros Sample.stub Sample.an_ideal_line Sample.a_point
    = Some (out, calls) /\
    present (partition_mask out) 0
    = existsb (fun id => kernel_writes id 0 && negb (is_gp23_gp32 id)) calls /\
    present (partition_mask out) 1 = existsb (fun id => kernel_writes id 1) calls /\
    present (partition_mask out) 2 = existsb (fun id => kernel_writes id 2) calls /\
    present (partition_mask out) 3 = existsb (fun id => kernel_writes id 3) calls.
Proof.
  split; [split; wf_now |].
  apply (allocated_slots_follow_kernels Sample.zeros Sample.stub
           Sample.an_ideal_line Sample.a_point); wf_now.
Defined.

(** For an ideal line times a point the p0 output of [gp23] is lost: the
    result is the p3 output alone. *)
Theorem product_p2_p3_drops_p0 (indeterminate : partition) (K : kernels) (A B : entity) :
  wf A -> wf B -> partition_mask A = 4 -> partition_mask B = 8 ->
  exists a b,
    parts A = [a] /\ parts B = [b] /\
    operator_star indeterminate K A B
    = Some (mk_entity 8 [_mm_add_ps (_mm_set1_ps F32.zero) (p0p3_p3 (gp23 K a b))]).
Proof.
  intros HA HB EA EB. wf_cases A HA; try discriminate EA.
  wf_cases B HB; try discriminate EB.
  do 2 eexists. repeat split.
Qed.

Lemma product_p2_p3_drops_p0_witness :
  (wf Sample.an_ideal_line /\ wf Sample.a_point /\
   partition_mask Sample.an_ideal_line = 4 /\ partition_mask Sample.a_point = 8) /\
  exists a b,
    parts Sample.an_ideal_line = [a] /\ parts Sample.a_point = [b] /\
    operator_star Sample.zeros Sample.stub Sample.an_ideal_line Sample.a_point
    = Some (mk_entity 8
              [_mm_add_ps (_mm_set1_ps F32.zero) (p0p3_p3 (gp23 Sample.stub a b))]).
Proof.
  split; [repeat split; try reflexivity; vm_compute; discriminate |].
  apply (product_p2_p3_drops_p0 Sample.zeros Sample.stub
           Sample.an_ideal_line Sample.a_point); try wf_now; reflexivity.
Defined.

(** ** The named entities *)

(** [plane(a, b, c, d)] is [d e0 + a e1 + b e2 + c e3]: the accessors give
    back the arguments, and nothing of the fresh storage is left. *)
Theorem plane_coefficients (indeterminate : partition) (a b c d : float) :
  exists P,
    plane.make indeterminate a b c d = Some P /\ wf P /\
    e1 P = Some a /\ e2 P = Some b /\ e3 P = Some c /\ e0 P = Some d.
Proof. eexists. split; [reflexivity|]. split; [wf_now|]. repeat split. Qed.

(** [bivector(a, b, c, d, e, f)] is the sum, in either order, of
    [ideal_line(a, b, c)] and [line(d, e, f)]; its accessors give back the
    six arguments and its scalar and pseudoscalar are [0.f]. *)
Theorem bivector_is_line_plus_ideal_line
  (indeterminate : partition) (a b c d e f : float) :
  exists L I Bv,
    line.make indeterminate d e f = Some L /\
    ideal_line.make indeterminate a b c = Some I /\
    bivector.make indeterminate a b c d e f = Some Bv /\
    operator_plus indeterminate L I = Some Bv /\
    operator_plus indeterminate I L = Some Bv /\
    e01 Bv = Some a /\ e02 Bv = Some b /\ e03 Bv = Some c /\
    e12 Bv = Some d /\ e31 Bv = Some e /\ e23 Bv = Some f /\
    scalar Bv = Some F32.zero /\ e0123 Bv = Some F32.zero.
Proof. do 3 eexists. repeat split. Qed.

(** [point(x, y, z)] is [x e032 + y e013 + z e021 + e123]: weight [1.f], and
    [x()], [y()], [z()] give back the arguments. *)
Theorem point_coefficients (indeterminate : partition) (x y z : float) :
  exists P,
    point.make indeterminate x y z = Some P /\ wf P /\
    point.x P = Some x /\ point.y P = Some y /\ point.z P = Some z /\
    e032 P = Some x /\ e013 P = Some y /\ e021 P = Some z /\
    e123 P = Some F32.one.
Proof. eexists. split; [reflexivity|]. split; [wf_now|]. repeat split. Qed.

(** [motor(a, ..., h)] fills p1 with [a, b, c, d] and p2 with [e, f, g, h],
    lane 0 first; all eight lanes are written. *)
Theorem motor_coefficients (indeterminate : partition) (a b c d e f g h : float) :
  exists M,
    motor.make indeterminate a b c d e f g h = Some M /\
    M = mk_entity 6 [mk_m128 a b c d; mk_m128 e f g h] /\
    scalar M = Some a /\ e12 M = Some b /\ e31 M = Some c /\ e23 M = Some d /\
    e0123 M = Some e /\ e01 M = Some f /\ e02 M = Some g /\ e03 M = Some h.
Proof. eexists. repeat split. Qed.


(** ** Reversion of the named entities *)

(** Reversion leaves every entity without p1, p2 and p3 (a plane) as it is,
    whatever its lanes hold. *)
Theorem reversion_fixes_planes (indeterminate : partition) (A : entity) :
  wf A -> Z.land (partition_mask A) 14 = 0 ->
  operator_tilde indeterminate A = Some A.
Proof.
  intros HA Hm. wf_cases A HA; try discriminate Hm; reflexivity.
Qed.

Lemma reversion_fixes_planes_witness :
  (wf Sample.a_plane /\ Z.land (partition_mask Sample.a_plane) 14 = 0) /\
  operator_tilde Sample.zeros Sample.a_plane = Some Sample.a_plane.
Proof.
  split; [split; [wf_now | reflexivity] |].
  apply (reversion_fixes_planes Sample.zeros Sample.a_plane); [wf_now | reflexivity].
Defined.

(** Reverting [line(d, e, f)] gives [line(-d, -e, -f)]; reverting
    [point(x, y, z)] negates the coordinates and the weight, which becomes
    [-1.f]. *)
Theorem reversion_of_line_and_point (indeterminate : partition) (u v w : float) :
  F32.valid u -> F32.valid v -> F32.valid w ->
  (exists L L',
     line.make indeterminate u v w = Some L /\
     line.make indeterminate (F32.neg u) (F32.neg v) (F32.neg w) = Some L' /\
     operator_tilde indeterminate L = Some L') /\
  (exists P P',
     point.make indeterminate u v w = Some P /\
     operator_tilde indeterminate P = Some P' /\
     e123 P' = Some F32.neg_one /\
     e032 P' = Some (F32.neg u) /\ e013 P' = Some (F32.neg v) /\
     e021 P' = Some (F32.neg w)).
Proof.
  intros Hu Hv Hw. split.
  - do 2 eexists. split; [reflexivity|]. split; [reflexivity|].
    run. rewrite mul_signs_high by (repeat split; assumption). reflexivity.
  - do 2 eexists. split; [reflexivity|]. split.
    + run. rewrite mul_signs_all by (repeat split; assumption). reflexivity.
    + repeat split.
Qed.

Lemma reversion_of_line_and_point_witness :
  (F32.valid Sample.two /\ F32.valid Sample.three /\ F32.valid Sample.four) /\
  (exists L L',
     line.make Sample.zeros Sample.two Sample.three Sample.four = Some L /\
     line.make Sample.zeros (F32.neg Sample.two) (F32.neg Sample.three) (F32.neg Sample.four)
     = Some L' /\
     operator_tilde Sample.zeros L = Some L') /\
  (exists P P',
     point.make Sample.zeros Sample.two Sample.three Sample.four = Some P /\
     operator_tilde Sample.zeros P = Some P' /\
     e123 P' = Some F32.neg_one /\
     e032 P' = Some (F32.neg Sample.two) /\ e013 P' = Some (F32.neg Sample.three) /\
     e021 P' = Some (F32.neg Sample.four)).
Proof.
  split; [repeat split |].
  apply (reversion_of_line_and_point Sample.zeros Sample.two Sample.three Sample.four);
    reflexivity.
Defined.

(** ** Directions, continued *)

(** A direction built by [direction(x, y, z)] passes the validation of the
    converting constructor, whatever [x], [y], [z] are. *)
Theorem constructed_direction_passes (indeterminate : partition) (x y z : float) :
  exists d,
    direction.make indeterminate x y z = Some d /\
    direction.from_entity indeterminate true d = Some (Returned d).
Proof. eexists. split; reflexivity. Qed.

(** A point built by [point(x, y, z)] has weight [1.f]: converting it to a
    direction aborts when validation is compiled in, and returns the point
    unchanged (a "direction" of weight 1) when it is compiled out. *)
Theorem constructed_point_aborts (indeterminate : partition) (x y z : float) :
  exists P,
    point.make indeterminate x y z = Some P /\
    direction.from_entity indeterminate true P = Some Aborted /\
    direction.from_entity indeterminate false P = Some (Returned P).
Proof. eexists. repeat split. Qed.

(** Indexing a direction outside 0..3 reads outside the partition: the index
    [3 - i] wraps around on [size_t]. *)
Theorem direction_index_out_of_range (d : entity) (i : Z) :
  4 <= i < 2 ^ 64 -> direction.operator_index d i = None.
Proof.
  intros Hi. unfold direction.operator_index.
  destruct (rd (parts d) 0) as [p|]; [|reflexivity]. cbn.
  assert (Hj : (3 - i) mod 2 ^ 64 = 2 ^ 64 + 3 - i).
  { symmetry. apply (Z.mod_unique _ _ (-1)); lia. }
  rewrite Hj. unfold data.
  repeat match goal with
         | |- context [?a =? ?b] =>
             replace (a =? b) with false by (symmetry; apply Z.eqb_neq; lia)
         end.
  reflexivity.
Qed.

Lemma direction_index_out_of_range_witness :
  4 <= 4 < 2 ^ 64 /\ direction.operator_index Sample.a_point 4 = None.
Proof.
  split; [split; [discriminate | reflexivity] |].
  apply (direction_index_out_of_range Sample.a_point 4).
  split; [discriminate | reflexivity].
Defined.
